(** * SchedulerWithReactIntegration.old.js: the synchronous flush queue

    A shallow embedding of
    [react-src/react-reconciler/src/SchedulerWithReactIntegration.old.js]:
    the priority translation between React's levels and the host
    Scheduler's, the normalised clock, and the queue of synchronous
    callbacks with its re-entrancy guard and its recovery from a callback
    that throws.

    The module's [let] variables form the record [State]; every exported
    function is a state transformer.  JavaScript exceptions are the [Throw]
    outcome, which keeps the state reached when the exception was raised.
    The host Scheduler ([scheduler] package) and [ReactFiberLane] are
    external: the state keeps the part of them the module reads and a log
    of the calls it makes to them. *)

From Stdlib Require Import Floats ZArith String Bool Lia.
From stdpp Require Import base list.

Local Open Scope Z_scope.

(** ** Callbacks

    [SchedulerCallback = (isSync: boolean) => SchedulerCallback | null].
    A callback is client code.  It is described by what it does when it is
    called: the calls it makes back into this module, in order, and how it
    ends (returns [null], returns a continuation, or throws).  The
    description may depend on the [isSync] argument.  [name] identifies the
    callback in the log. *)

Inductive Error : Type :=
| InvariantViolation (message : string)
| CallbackError (code : nat).

Inductive SchedulerCallback : Type :=
| Callback (name : nat) (body : bool -> Behaviour)
with Behaviour : Type :=
| ReturnNull
| ReturnCallback (continuation : SchedulerCallback)
| Raise (error : Error)
| CallScheduleSyncCallback (callback : SchedulerCallback) (rest : Behaviour)
| CallFlushSyncCallbackQueue (rest : Behaviour)
| CallSetCurrentUpdateLanePriority (lane : Z) (rest : Behaviour).

Definition callbackName (c : SchedulerCallback) : nat :=
  match c with Callback name _ => name end.

Definition callbackBody (c : SchedulerCallback) : bool -> Behaviour :=
  match c with Callback _ body => body end.

(** ** The host Scheduler and the log of calls *)

(** What is handed to [Scheduler_scheduleCallback]: one of the two flush
    functions of this module, or a callback of the client. *)
Inductive HostCallback : Type :=
| Fn_flushSyncCallbackQueueImpl
| Fn_flushSyncCallbackQueue
| Fn_callback (c : SchedulerCallback).

Inductive Event : Type :=
| EvInvoke (name : nat) (isSync : bool) (lane : Z) (hostPriority : Z)
| EvSchedule (priority : Z) (fn : HostCallback) (options : option Z) (node : nat)
| EvCancel (node : nat).

(** The value a scheduling function returns: the sentinel object
    [fakeCallbackNode], or the task the host Scheduler returned. *)
Inductive CallbackNode : Type :=
| fakeCallbackNode
| SchedulerNode (node : nat).

Record Host : Type := mkHost {
  hostNow : float;         (* what Scheduler_now() reads *)
  hostPriorityLevel : Z;   (* what Scheduler_getCurrentPriorityLevel() reads *)
  hostNextNode : nat       (* the next task the host hands out *)
}.

(** ** The module state

    [syncQueue] is a reference to an array or [null]: arrays live in
    [arrays], a location is an index into it, so that the alias [queue] of
    the drain and [syncQueue] see the same pushes. *)

Record State : Type := mkState {
  syncQueue : option nat;
  immediateQueueCallbackNode : option nat;
  isFlushingSyncQueue : bool;
  initialTimeMs : float;
  arrays : list (list SchedulerCallback);
  currentUpdateLanePriority : Z;
  host : Host;
  log : list Event
}.

Definition set_syncQueue (v : option nat) (st : State) : State :=
  mkState v (immediateQueueCallbackNode st) (isFlushingSyncQueue st)
    (initialTimeMs st) (arrays st) (currentUpdateLanePriority st) (host st) (log st).

Definition set_immediateQueueCallbackNode (v : option nat) (st : State) : State :=
  mkState (syncQueue st) v (isFlushingSyncQueue st)
    (initialTimeMs st) (arrays st) (currentUpdateLanePriority st) (host st) (log st).

Definition set_isFlushingSyncQueue (v : bool) (st : State) : State :=
  mkState (syncQueue st) (immediateQueueCallbackNode st) v
    (initialTimeMs st) (arrays st) (currentUpdateLanePriority st) (host st) (log st).

Definition set_arrays (v : list (list SchedulerCallback)) (st : State) : State :=
  mkState (syncQueue st) (immediateQueueCallbackNode st) (isFlushingSyncQueue st)
    (initialTimeMs st) v (currentUpdateLanePriority st) (host st) (log st).

Definition set_host (v : Host) (st : State) : State :=
  mkState (syncQueue st) (immediateQueueCallbackNode st) (isFlushingSyncQueue st)
    (initialTimeMs st) (arrays st) (currentUpdateLanePriority st) v (log st).

Definition logEvent (ev : Event) (st : State) : State :=
  mkState (syncQueue st) (immediateQueueCallbackNode st) (isFlushingSyncQueue st)
    (initialTimeMs st) (arrays st) (currentUpdateLanePriority st) (host st)
    (log st ++ [ev]).

(** The outcome of a call: a value, an exception, or the fuel of a loop
    ran out.  The first two carry the state the call leaves. *)
Inductive Result (A : Type) : Type :=
| Ok (a : A) (st : State)
| Throw (error : Error) (st : State)
| OutOfFuel.

Arguments Ok {A} a st.
Arguments Throw {A} error st.
Arguments OutOfFuel {A}.

(** Modelled from the spec: [invariant] of [shared/invariant] is not among
    the sources.  [invariant(false, message)] fails loudly: it throws an
    error that carries the message. *)
Definition invariant_false {A} (message : string) (st : State) : Result A :=
  Throw (InvariantViolation message) st.

(** ** Priorities (lines 62-73 and the comment of lines 97-102) *)

Definition ImmediatePriority : Z := 99.
Definition UserBlockingPriority : Z := 98.
Definition NormalPriority : Z := 97.
Definition LowPriority : Z := 96.
Definition IdlePriority : Z := 95.
Definition NoPriority : Z := 90.

(** The constants of the [scheduler] package, with the values the comment
    above [getCurrentPriorityLevel] gives. *)
Definition Scheduler_ImmediatePriority : Z := 1.
Definition Scheduler_UserBlockingPriority : Z := 2.
Definition Scheduler_NormalPriority : Z := 3.
Definition Scheduler_LowPriority : Z := 4.
Definition Scheduler_IdlePriority : Z := 5.

Definition reactPriorityLevels : list Z :=
  [ImmediatePriority; UserBlockingPriority; NormalPriority; LowPriority; IdlePriority].

Definition schedulerPriorityLevels : list Z :=
  [Scheduler_ImmediatePriority; Scheduler_UserBlockingPriority;
   Scheduler_NormalPriority; Scheduler_LowPriority; Scheduler_IdlePriority].

(** ** The host primitives *)

(** Modelled from the spec: the [scheduler] package is not among the
    sources.  [Scheduler_now()] reads the host clock.  A reading is a
    JavaScript number, that is a binary64 float: [performance.now()] gives
    fractions of a millisecond, [Date.now()] whole milliseconds. *)
Definition Scheduler_now (st : State) : float := hostNow (host st).

(** Modelled from the spec: [Scheduler_getCurrentPriorityLevel()] reads the
    host's ambient priority. *)
Definition Scheduler_getCurrentPriorityLevel (st : State) : Z :=
  hostPriorityLevel (host st).

Definition set_hostPriorityLevel (p : Z) (st : State) : State :=
  set_host (mkHost (hostNow (host st)) p (hostNextNode (host st))) st.

(** Modelled from the spec:
    [Scheduler_scheduleCallback(priorityLevel, callback, options)] hands
    the callback to the host for execution later; the host returns a new
    task, nothing runs yet.  The request is logged. *)
Definition Scheduler_scheduleCallback (priorityLevel : Z) (fn : HostCallback)
    (options : option Z) (st : State) : nat * State :=
  let node := hostNextNode (host st) in
  (node,
   logEvent (EvSchedule priorityLevel fn options node)
     (set_host (mkHost (hostNow (host st)) (hostPriorityLevel (host st)) (S node)) st)).

(** Modelled from the spec: [Scheduler_cancelCallback(node)] asks the host
    to cancel a task.  The request is logged. *)
Definition Scheduler_cancelCallback (node : nat) (st : State) : State :=
  logEvent (EvCancel node) st.

(** Modelled from the spec:
    [Scheduler_runWithPriority(priorityLevel, eventHandler)] runs the
    handler in the same call with the ambient priority set to
    [priorityLevel]; the previous ambient priority is put back when the
    handler returns or throws.  The handler is a closure: [F] is the type
    of the local variables it captures and assigns, handed in and out
    beside the state. *)
Definition Scheduler_runWithPriority {F A : Type} (priorityLevel : Z)
    (eventHandler : F -> State -> F * Result A) (frame : F) (st : State)
    : F * Result A :=
  let previousPriorityLevel := hostPriorityLevel (host st) in
  match eventHandler frame (set_hostPriorityLevel priorityLevel st) with
  | (frame', Ok a st') => (frame', Ok a (set_hostPriorityLevel previousPriorityLevel st'))
  | (frame', Throw e st') => (frame', Throw e (set_hostPriorityLevel previousPriorityLevel st'))
  | (frame', OutOfFuel) => (frame', OutOfFuel)
  end.

(** Modelled from the spec: [ReactFiberLane] is not among the sources.
    Its getter and setter read and write one variable, the current update
    lane priority. *)
Definition getCurrentUpdateLanePriority (st : State) : Z :=
  currentUpdateLanePriority st.

Definition setCurrentUpdateLanePriority (lane : Z) (st : State) : State :=
  mkState (syncQueue st) (immediateQueueCallbackNode st) (isFlushingSyncQueue st)
    (initialTimeMs st) (arrays st) lane (host st) (log st).

(** Module initialisation (lines 80-83). *)
Definition moduleInit (h : Host) (lane : Z) : State :=
  mkState None None false (hostNow h) [] lane h [].

(** ** now (lines 92-93)

    The comparison and the subtraction are those of binary64 numbers:
    [<] is false when [initialTimeMs] is NaN, and the difference is
    rounded to the nearest float. *)
Definition now (st : State) : float :=
  if (initialTimeMs st <? 10000)%float then Scheduler_now st
  else (Scheduler_now st - initialTimeMs st)%float.

(** ** Priority translation (lines 103-141) *)

(** The [switch] of [getCurrentPriorityLevel] on the host's value. *)
Definition schedulerPriorityToReactPriority (schedulerPriority : Z) (st : State)
    : Result Z :=
  if schedulerPriority =? Scheduler_ImmediatePriority then Ok ImmediatePriority st
  else if schedulerPriority =? Scheduler_UserBlockingPriority then Ok UserBlockingPriority st
  else if schedulerPriority =? Scheduler_NormalPriority then Ok NormalPriority st
  else if schedulerPriority =? Scheduler_LowPriority then Ok LowPriority st
  else if schedulerPriority =? Scheduler_IdlePriority then Ok IdlePriority st
  else invariant_false "Unknown priority level." st.

Definition getCurrentPriorityLevel (st : State) : Result Z :=
  schedulerPriorityToReactPriority (Scheduler_getCurrentPriorityLevel st) st.

Definition reactPriorityToSchedulerPriority (reactPriorityLevel : Z) (st : State)
    : Result Z :=
  if reactPriorityLevel =? ImmediatePriority then Ok Scheduler_ImmediatePriority st
  else if reactPriorityLevel =? UserBlockingPriority then Ok Scheduler_UserBlockingPriority st
  else if reactPriorityLevel =? NormalPriority then Ok Scheduler_NormalPriority st
  else if reactPriorityLevel =? LowPriority then Ok Scheduler_LowPriority st
  else if reactPriorityLevel =? IdlePriority then Ok Scheduler_IdlePriority st
  else invariant_false "Unknown priority level." st.

(** ** runWithPriority and scheduleCallback (lines 144-161) *)

Definition runWithPriority {F A : Type} (reactPriorityLevel : Z)
    (fn : F -> State -> F * Result A) (frame : F) (st : State) : F * Result A :=
  match reactPriorityToSchedulerPriority reactPriorityLevel st with
  | Ok priorityLevel st1 => Scheduler_runWithPriority priorityLevel fn frame st1
  | Throw e st1 => (frame, Throw e st1)
  | OutOfFuel => (frame, OutOfFuel)
  end.

Definition scheduleCallback (reactPriorityLevel : Z) (callback : SchedulerCallback)
    (options : option Z) (st : State) : Result CallbackNode :=
  match reactPriorityToSchedulerPriority reactPriorityLevel st with
  | Ok priorityLevel st1 =>
      let (node, st2) :=
        Scheduler_scheduleCallback priorityLevel (Fn_callback callback) options st1 in
      Ok (SchedulerNode node) st2
  | Throw e st1 => Throw e st1
  | OutOfFuel => OutOfFuel
  end.

(** ** Arrays *)

(** The contents of the array at a location. *)
Definition readArray (q : nat) (st : State) : list SchedulerCallback :=
  default [] (arrays st !! q).

(** An array literal or the result of [slice]: a new array. *)
Definition newArray (l : list SchedulerCallback) (st : State) : nat * State :=
  (length (arrays st), set_arrays (arrays st ++ [l]) st).

(** [array.push(callback)]: the array at [q] is updated in place. *)
Definition pushArray (q : nat) (callback : SchedulerCallback) (st : State) : State :=
  set_arrays (<[q := readArray q st ++ [callback]]> (arrays st)) st.

(** [array.slice(start)]. *)
Definition sliceArray (q : nat) (start : nat) (st : State) : nat * State :=
  newArray (drop start (readArray q st)) st.

(** A [finally] block that cannot throw. *)
Definition finally {A : Type} (cleanup : State -> State) (r : Result A) : Result A :=
  match r with
  | Ok a st => Ok a (cleanup st)
  | Throw e st => Throw e (cleanup st)
  | OutOfFuel => OutOfFuel
  end.

(** ** The synchronous queue (lines 163-279) *)

Definition scheduleSyncCallback (callback : SchedulerCallback) (st : State)
    : CallbackNode * State :=
  match syncQueue st with
  | None =>
      let (q, st1) := newArray [callback] st in
      let st2 := set_syncQueue (Some q) st1 in
      let (node, st3) :=
        Scheduler_scheduleCallback Scheduler_ImmediatePriority
          Fn_flushSyncCallbackQueueImpl None st2 in
      (fakeCallbackNode, set_immediateQueueCallbackNode (Some node) st3)
  | Some q => (fakeCallbackNode, pushArray q callback st)
  end.

Definition cancelCallback (callbackNode : CallbackNode) (st : State) : State :=
  match callbackNode with
  | fakeCallbackNode => st
  | SchedulerNode node => Scheduler_cancelCallback node st
  end.

(** The [if] that opens [flushSyncCallbackQueue] (lines 190-195). *)
Definition cancelImmediateQueueCallbackNode (st : State) : State :=
  match immediateQueueCallbackNode st with
  | Some node =>
      Scheduler_cancelCallback node (set_immediateQueueCallbackNode None st)
  | None => st
  end.

(** [flushSyncCallbackQueue], given what its call of
    [flushSyncCallbackQueueImpl] does. *)
Definition flushSyncCallbackQueue_with (impl : State -> Result unit) (st : State)
    : Result unit :=
  impl (cancelImmediateQueueCallbackNode st).

Section Drain.

(** What a call of [flushSyncCallbackQueue] from inside a callback does. *)
Variable reentrantFlush : State -> Result unit.

(** The body of a callback, run from the state of the call. *)
Fixpoint runBehaviour (b : Behaviour) (st : State)
    : Result (option SchedulerCallback) :=
  match b with
  | ReturnNull => Ok None st
  | ReturnCallback k => Ok (Some k) st
  | Raise e => Throw e st
  | CallScheduleSyncCallback c rest =>
      runBehaviour rest (snd (scheduleSyncCallback c st))
  | CallFlushSyncCallbackQueue rest =>
      match reentrantFlush st with
      | Ok _ st' => runBehaviour rest st'
      | Throw e st' => Throw e st'
      | OutOfFuel => OutOfFuel
      end
  | CallSetCurrentUpdateLanePriority lane rest =>
      runBehaviour rest (setCurrentUpdateLanePriority lane st)
  end.

(** [callback(isSync)]. The log records the call with the lane priority
    and the host priority it runs under. *)
Definition invoke (callback : SchedulerCallback) (isSync : bool) (st : State)
    : Result (option SchedulerCallback) :=
  runBehaviour (callbackBody callback isSync)
    (logEvent (EvInvoke (callbackName callback) isSync
                 (currentUpdateLanePriority st) (hostPriorityLevel (host st))) st).

(** [do { callback = callback(isSync); } while (callback !== null);] *)
Fixpoint doWhile (fuel : nat) (callback : SchedulerCallback) (st : State)
    : Result unit :=
  match fuel with
  | O => OutOfFuel
  | S fuel' =>
      match invoke callback true st with
      | Ok (Some k) st' => doWhile fuel' k st'
      | Ok None st' => Ok tt st'
      | Throw e st' => Throw e st'
      | OutOfFuel => OutOfFuel
      end
  end.

(** [for (; i < queue.length; i++) { let callback = queue[i]; do ... }]:
    the closure handed to [runWithPriority]. It assigns the variable [i]
    of [flushSyncCallbackQueueImpl], whose value it returns. *)
Fixpoint forLoop (fuel : nat) (queue : nat) (i : nat) (st : State)
    : nat * Result unit :=
  match readArray queue st !! i with
  | None => (i, Ok tt st)
  | Some callback =>
      match fuel with
      | O => (i, OutOfFuel)
      | S fuel' =>
          match doWhile fuel' callback st with
          | Ok _ st' => forLoop fuel' queue (S i) st'
          | Throw e st' => (i, Throw e st')
          | OutOfFuel => (i, OutOfFuel)
          end
      end
  end.

End Drain.

(** The [catch] block (lines 228-240 and 260-272), with the value of [i]
    at the throw. *)
Definition catchBlock (i : nat) (error : Error) (st : State) : Result unit :=
  let st1 :=
    match syncQueue st with
    | Some q =>
        let (q', st') := sliceArray q (i + 1) st in set_syncQueue (Some q') st'
    | None => st
    end in
  let (_, st2) :=
    Scheduler_scheduleCallback Scheduler_ImmediatePriority
      Fn_flushSyncCallbackQueue None st1 in
  Throw error st2.

Section Flags.

(** [decoupleUpdatePriorityFromScheduler] of [shared/ReactFeatureFlags]
    and [SyncLanePriority] of [ReactFiberLane]. *)
Variable decoupleUpdatePriorityFromScheduler : bool.
Variable SyncLanePriority : Z.

(** [try { ... } catch (error) { ... }] of one branch; [queue] is the
    array [syncQueue] refers to when the branch is entered, [before] is
    what the branch does between [const queue = syncQueue] and the call
    of [runWithPriority]. *)
Definition tryCatch (reentrantFlush : State -> Result unit) (fuel : nat)
    (queue : nat) (before : State -> State) (st : State) : Result unit :=
  match runWithPriority ImmediatePriority
          (forLoop reentrantFlush fuel queue) 0%nat (before st) with
  | (_, Ok _ st') => Ok tt (set_syncQueue None st')
  | (i, Throw error st') => catchBlock i error st'
  | (_, OutOfFuel) => OutOfFuel
  end.

(** The fuel bounds the number of callback calls of one drain. A call of
    [flushSyncCallbackQueue] from inside a callback is the function
    itself, one level down. *)
Fixpoint flushSyncCallbackQueueImpl (fuel : nat) (st : State) {struct fuel}
    : Result unit :=
  let reentrantFlush :=
    match fuel with
    | O => fun _ => OutOfFuel
    | S fuel' => flushSyncCallbackQueue_with (flushSyncCallbackQueueImpl fuel')
    end in
  match isFlushingSyncQueue st, syncQueue st with
  | false, Some queue =>
      let st1 := set_isFlushingSyncQueue true st in
      if decoupleUpdatePriorityFromScheduler then
        let previousLanePriority := getCurrentUpdateLanePriority st1 in
        finally
          (fun s => set_isFlushingSyncQueue false
                      (setCurrentUpdateLanePriority previousLanePriority s))
          (tryCatch reentrantFlush fuel queue
             (setCurrentUpdateLanePriority SyncLanePriority) st1)
      else
        finally (set_isFlushingSyncQueue false)
          (tryCatch reentrantFlush fuel queue (fun s => s) st1)
  | _, _ => Ok tt st
  end.

Definition flushSyncCallbackQueue (fuel : nat) (st : State) : Result unit :=
  flushSyncCallbackQueue_with (flushSyncCallbackQueueImpl fuel) st.

End Flags.

Local Close Scope Z_scope.

(** ** What a callback does in a drain

    The drain calls every callback with [isSync = true].  The functions
    below read off a callback's description what its chain (the callback,
    then each continuation it returns) does there. *)

(** The calls of the chain, in order, each with the flag [true]. *)
Fixpoint chainCalls (c : SchedulerCallback) : list (nat * bool) :=
  match c with Callback name body => (name, true) :: behaviourCalls (body true) end
with behaviourCalls (b : Behaviour) : list (nat * bool) :=
  match b with
  | ReturnNull => []
  | ReturnCallback k => chainCalls k
  | Raise _ => []
  | CallScheduleSyncCallback _ rest => behaviourCalls rest
  | CallFlushSyncCallbackQueue rest => behaviourCalls rest
  | CallSetCurrentUpdateLanePriority _ rest => behaviourCalls rest
  end.

(** The callbacks the chain hands to [scheduleSyncCallback], in order. *)
Fixpoint enqueuedBy (c : SchedulerCallback) : list SchedulerCallback :=
  match c with Callback _ body => behaviourEnqueued (body true) end
with behaviourEnqueued (b : Behaviour) : list SchedulerCallback :=
  match b with
  | ReturnNull => []
  | ReturnCallback k => enqueuedBy k
  | Raise _ => []
  | CallScheduleSyncCallback c rest => c :: behaviourEnqueued rest
  | CallFlushSyncCallbackQueue rest => behaviourEnqueued rest
  | CallSetCurrentUpdateLanePriority _ rest => behaviourEnqueued rest
  end.

(** How the chain ends: [None] when it returns [null], the error when one
    of its callbacks throws. *)
Fixpoint chainError (c : SchedulerCallback) : option Error :=
  match c with Callback _ body => behaviourError (body true) end
with behaviourError (b : Behaviour) : option Error :=
  match b with
  | ReturnNull => None
  | ReturnCallback k => chainError k
  | Raise e => Some e
  | CallScheduleSyncCallback _ rest => behaviourError rest
  | CallFlushSyncCallbackQueue rest => behaviourError rest
  | CallSetCurrentUpdateLanePriority _ rest => behaviourError rest
  end.

(** No callback of the chain throws, nor any callback they enqueue. *)
Fixpoint neverThrows (c : SchedulerCallback) : bool :=
  match c with Callback _ body => behaviourNeverThrows (body true) end
with behaviourNeverThrows (b : Behaviour) : bool :=
  match b with
  | ReturnNull => true
  | ReturnCallback k => neverThrows k
  | Raise _ => false
  | CallScheduleSyncCallback c rest => neverThrows c && behaviourNeverThrows rest
  | CallFlushSyncCallbackQueue rest => behaviourNeverThrows rest
  | CallSetCurrentUpdateLanePriority _ rest => behaviourNeverThrows rest
  end.

(** No callback of the chain sets the current update lane priority, nor
    any callback they enqueue. *)
Fixpoint keepsLane (c : SchedulerCallback) : bool :=
  match c with Callback _ body => behaviourKeepsLane (body true) end
with behaviourKeepsLane (b : Behaviour) : bool :=
  match b with
  | ReturnNull => true
  | ReturnCallback k => keepsLane k
  | Raise _ => true
  | CallScheduleSyncCallback c rest => keepsLane c && behaviourKeepsLane rest
  | CallFlushSyncCallbackQueue rest => behaviourKeepsLane rest
  | CallSetCurrentUpdateLanePriority _ _ => false
  end.

(** The number of callback calls a drain makes for the chain and for what
    it enqueues: the fuel that is enough for it. *)
Fixpoint chainSize (c : SchedulerCallback) : nat :=
  match c with Callback _ body => S (behaviourSize (body true)) end
with behaviourSize (b : Behaviour) : nat :=
  match b with
  | ReturnNull => 0
  | ReturnCallback k => chainSize k
  | Raise _ => 0
  | CallScheduleSyncCallback c rest => chainSize c + behaviourSize rest
  | CallFlushSyncCallbackQueue rest => behaviourSize rest
  | CallSetCurrentUpdateLanePriority _ rest => behaviourSize rest
  end.

Definition queueSize (l : list SchedulerCallback) : nat :=
  foldr (fun c n => chainSize c + n) 0 l.

(** The callback calls of a log, and the requests to the host in it. *)
Definition invocations (evs : list Event) : list (nat * bool) :=
  omap (fun ev => match ev with
                  | EvInvoke name isSync _ _ => Some (name, isSync)
                  | _ => None
                  end) evs.

Definition registrations (evs : list Event) : list (Z * HostCallback * nat) :=
  omap (fun ev => match ev with
                  | EvSchedule priority fn _ node => Some (priority, fn, node)
                  | _ => None
                  end) evs.

(** The event, when it is a callback call, was made under the lane
    priority [lane]. *)
Definition calledUnder (lane : Z) (ev : Event) : Prop :=
  match ev with
  | EvInvoke _ _ l _ => l = lane
  | _ => True
  end.

(** [scheduleSyncCallback] called on each callback of a list in turn. *)
Definition scheduleSyncCallbacks (l : list SchedulerCallback) (st : State) : State :=
  foldl (fun s c => snd (scheduleSyncCallback c s)) st l.

Definition endResult (o : option Error) (st : State) : Result unit :=
  match o with
  | None => Ok tt st
  | Some e => Throw e st
  end.

(** ** Parts of a drain, named for the proofs *)

(** What [flushSyncCallbackQueue] is to the callbacks of a drain that has
    [fuel] left. *)
Definition reentrantFlushOf (decouple : bool) (syncLane : Z) (fuel : nat)
    : State -> Result unit :=
  match fuel with
  | O => fun _ => OutOfFuel
  | S fuel' => flushSyncCallbackQueue decouple syncLane fuel'
  end.

(** The state in which the loop of a drain starts. *)
Definition drainEntry (decouple : bool) (syncLane : Z) (st : State) : State :=
  set_hostPriorityLevel Scheduler_ImmediatePriority
    ((if decouple then setCurrentUpdateLanePriority syncLane else fun s => s)
       (set_isFlushingSyncQueue true st)).

(** The [finally] block of a drain entered in state [st]. *)
Definition drainCleanup (decouple : bool) (st : State) (s : State) : State :=
  set_isFlushingSyncQueue false
    (if decouple
     then setCurrentUpdateLanePriority (currentUpdateLanePriority st) s
     else s).

(** The rest of the [do ... while] after one call of the callback. *)
Definition continueWith (reentrantFlush : State -> Result unit) (fuel : nat)
    (r : Result (option SchedulerCallback)) : Result unit :=
  match r with
  | Ok (Some k) st' => doWhile reentrantFlush fuel k st'
  | Ok None st' => Ok tt st'
  | Throw e st' => Throw e st'
  | OutOfFuel => OutOfFuel
  end.

(** ** The state during a drain *)

(** The guard is set and [syncQueue] refers to the array [A]. *)
Record draining (q : nat) (A : list SchedulerCallback) (st : State) : Prop := {
  dr_guard : isFlushingSyncQueue st = true;
  dr_queue : syncQueue st = Some q;
  dr_array : arrays st !! q = Some A
}.

(** From [st] to [st'] the drain goes on with the same array, which grew
    by [enq]; the log grew by the callback calls [calls], and by no request
    to the host. *)
Record drainStep (q : nat) (enq : list SchedulerCallback) (calls : list (nat * bool))
    (st st' : State) : Prop := {
  ds_guard : isFlushingSyncQueue st' = true;
  ds_queue : syncQueue st' = Some q;
  ds_array : forall A, arrays st !! q = Some A -> arrays st' !! q = Some (A ++ enq);
  ds_log : exists evs, log st' = log st ++ evs /\ invocations evs = calls /\
                       registrations evs = []
}.

(** From [st] to [st'] the current update lane priority did not change
    and every callback was called under it. *)
Definition laneStep (st st' : State) : Prop :=
  currentUpdateLanePriority st' = currentUpdateLanePriority st /\
  exists evs,
    log st' = log st ++ evs /\
    Forall (calledUnder (currentUpdateLanePriority st)) evs.

(** What the [do ... while] does with a callback, and with the rest of a
    callback's body, in a drain. *)
Definition chainSpec (reentrantFlush : State -> Result unit) (q : nat)
    (c : SchedulerCallback) : Prop :=
  forall n st A,
    chainSize c <= n -> draining q A st ->
    exists st',
      doWhile reentrantFlush n c st = endResult (chainError c) st' /\
      drainStep q (enqueuedBy c) (chainCalls c) st st' /\
      (exists evs,
          log st' = log st ++
            EvInvoke (callbackName c) true (currentUpdateLanePriority st)
              (hostPriorityLevel (host st)) :: evs) /\
      (keepsLane c = true -> laneStep st st').

Definition behaviourSpec (reentrantFlush : State -> Result unit) (q : nat)
    (b : Behaviour) : Prop :=
  forall n st A,
    behaviourSize b <= n -> draining q A st ->
    exists st',
      continueWith reentrantFlush n (runBehaviour reentrantFlush b st)
        = endResult (behaviourError b) st' /\
      drainStep q (behaviourEnqueued b) (behaviourCalls b) st st' /\
      (behaviourKeepsLane b = true -> laneStep st st').

(** ** Outcomes named in the theorems *)

Definition unknownPriorityLevel : Error :=
  InvariantViolation "Unknown priority level.".

(** The outcome [r] of a drain started after the callbacks [cbs] were
    enqueued in state [st]: it succeeds, leaves [syncQueue] null and the
    guard clear, and the callback calls it added to the log are the chains
    of [cbs], then the chains of the callbacks [extra] enqueued meanwhile,
    each chain whole and once, in the order of the queue. *)
Definition drainsAll (cbs : list SchedulerCallback) (st : State) (r : Result unit)
    : Prop :=
  exists st' extra,
    r = Ok tt st' /\
    syncQueue st' = None /\
    isFlushingSyncQueue st' = false /\
    invocations (log st') = invocations (log st) ++ flat_map chainCalls (cbs ++ extra) /\
    extra = flat_map enqueuedBy (cbs ++ extra).

(** The outcome [r] of a drain, started in state [st], whose queue is
    [pre ++ c :: post] and whose entry [c] is the first to throw, with
    error [e]: the error reaches the caller; [syncQueue] is a new array
    holding the entries after [c] (followed by what [pre] and [c] enqueued
    before the throw, if anything); the guard is clear; the log grew by
    the calls of [pre] and [c], each once, and then by one request to the
    host, for [flushSyncCallbackQueue] at the Scheduler's Immediate
    priority. *)
Definition recoversAfter (pre : list SchedulerCallback) (c : SchedulerCallback)
    (post : list SchedulerCallback) (e : Error) (st : State) (r : Result unit)
    : Prop :=
  exists st' q' evs node,
    r = Throw e st' /\
    syncQueue st' = Some q' /\
    arrays st' !! q' = Some (post ++ flat_map enqueuedBy (pre ++ [c])) /\
    isFlushingSyncQueue st' = false /\
    log st' = log st ++ evs ++
      [EvSchedule Scheduler_ImmediatePriority Fn_flushSyncCallbackQueue None node] /\
    invocations evs = flat_map chainCalls (pre ++ [c]) /\
    registrations evs = [].

(** The entries the loop of a drain has gone through when it reaches
    index [k], the array holding [A] as the drain starts: every entry
    runs its chain, and what the chain enqueues is pushed behind the
    array.  [None] when one of these chains throws, or when the array ends
    before index [k]. *)
Fixpoint entriesBefore (k : nat) (A : list SchedulerCallback)
    : option (list SchedulerCallback) :=
  match k with
  | O => Some []
  | S k' =>
      match entriesBefore k' A with
      | Some done =>
          match (A ++ flat_map enqueuedBy done) !! k' with
          | Some c =>
              match chainError c with
              | None => Some (done ++ [c])
              | Some _ => None
              end
          | None => None
          end
      | None => None
      end
  end.

(** The outcome [r] of a drain started in state [st] on the array [q]
    runs the callback [c] in the same pass, behind the entries [ahead]:
    the drain ends, by success or by an exception; the array [q] holds
    [ahead], then [c], then what was pushed behind it; and the log grew
    first by the calls of the chains of [ahead] and of [c], in this order
    and each once, with no request to the host among them. *)
Definition runsInSamePass (ahead : list SchedulerCallback) (c : SchedulerCallback)
    (q : nat) (st : State) (r : Result unit) : Prop :=
  exists st' behind evs evs',
    (r = Ok tt st' \/ exists e, r = Throw e st') /\
    arrays st' !! q = Some (ahead ++ c :: behind) /\
    log st' = log st ++ evs ++ evs' /\
    invocations evs = flat_map chainCalls ahead ++ chainCalls c /\
    registrations evs = [].

(** ** Sample callbacks and states *)

Definition sampleState : State :=
  moduleInit (mkHost 120 Scheduler_NormalPriority 0) 8.

(** Returns [null] at once. *)
Definition cbDone (name : nat) : SchedulerCallback :=
  Callback name (fun _ => ReturnNull).

(** Returns a continuation, which returns [null]. *)
Definition cbTwoSteps (name next : nat) : SchedulerCallback :=
  Callback name (fun _ => ReturnCallback (cbDone next)).

(** Enqueues another callback, then returns [null]. *)
Definition cbEnqueues (name other : nat) : SchedulerCallback :=
  Callback name (fun _ => CallScheduleSyncCallback (cbDone other) ReturnNull).

(** Throws. *)
Definition cbThrows (name code : nat) : SchedulerCallback :=
  Callback name (fun _ => Raise (CallbackError code)).

(** [sampleState] after the callbacks were enqueued. *)
Definition sampleQueued (cbs : list SchedulerCallback) : State :=
  scheduleSyncCallbacks cbs sampleState.

(** A state in the middle of a drain. *)
Definition sampleDraining : State :=
  set_isFlushingSyncQueue true (sampleQueued [cbDone 1; cbDone 2]).

(** ** The states a drain ends in *)

(** The state the [catch] block leaves when [syncQueue] is the array [q]
    and [i] is the index of the entry that threw. *)
Definition afterCatch (i : nat) (q : nat) (st : State) : State :=
  snd (Scheduler_scheduleCallback Scheduler_ImmediatePriority
         Fn_flushSyncCallbackQueue None
         (set_syncQueue (Some (length (arrays st))) (snd (sliceArray q (i + 1) st)))).

(** The state a drain entered in [st] returns in, when its loop ended in
    [stL] by running off the array. *)
Definition drainOkState (decouple : bool) (st stL : State) : State :=
  drainCleanup decouple st
    (set_syncQueue None (set_hostPriorityLevel (hostPriorityLevel (host st)) stL)).

(** The state a drain entered in [st] throws in, when its loop ended in
    [stL] by the exception of the entry at [j] of the array [q]. *)
Definition drainThrowState (decouple : bool) (st : State) (q j : nat) (stL : State)
    : State :=
  drainCleanup decouple st
    (afterCatch j q (set_hostPriorityLevel (hostPriorityLevel (host st)) stL)).

(** The event, when it is a callback call, was made under the host
    priority [p]. *)
Definition calledAt (p : Z) (ev : Event) : Prop :=
  match ev with
  | EvInvoke _ _ _ hp => hp = p
  | _ => True
  end.

(** The host task an event is about. *)
Definition eventNode (ev : Event) : option nat :=
  match ev with
  | EvInvoke _ _ _ _ => None
  | EvSchedule _ _ _ node => Some node
  | EvCancel node => Some node
  end.

(** The event is a callback call, or the cancellation of the task [stored]. *)
Definition callOrCancelOf (stored : option nat) (ev : Event) : Prop :=
  match ev with
  | EvInvoke _ _ _ _ => True
  | EvSchedule _ _ _ _ => False
  | EvCancel node => stored = Some node
  end.

(** From [st] to [st'] the host handed out no task, the stored task was
    kept or cleared, and the log grew by callback calls and cancellations
    of the stored task only. *)
Definition nodeStep (st st' : State) : Prop :=
  hostNextNode (host st') = hostNextNode (host st) /\
  (immediateQueueCallbackNode st' = immediateQueueCallbackNode st \/
   immediateQueueCallbackNode st' = None) /\
  exists evs,
    log st' = log st ++ evs /\
    Forall (callOrCancelOf (immediateQueueCallbackNode st)) evs.

(** From [st] to [st'] the host's ambient priority did not change and
    every callback was called under it. *)
Definition hostPriorityStep (st st' : State) : Prop :=
  hostPriorityLevel (host st') = hostPriorityLevel (host st) /\
  exists evs,
    log st' = log st ++ evs /\
    Forall (calledAt (hostPriorityLevel (host st))) evs.

(** ** The module and the host together

    The host runs a task it was handed at some later time, once, unless the
    task was cancelled before.  A world is the module state with the tasks
    the host has run so far. *)

Record World : Type := mkWorld {
  moduleState : State;
  firedNodes : list nat
}.

(** The function is one of the two flush functions of the module. *)
Definition isFlushFn (fn : HostCallback) : bool :=
  match fn with
  | Fn_callback _ => false
  | _ => true
  end.

(** The task [node] was handed to the host with the function [fn]. *)
Definition registered (node : nat) (fn : HostCallback) (st : State) : Prop :=
  exists priority options, In (EvSchedule priority fn options node) (log st).

(** The task [node] is a flush function the host has still to run: it was
    handed to the host, not cancelled since, and has not run. *)
Definition pendingFlush (w : World) (node : nat) (fn : HostCallback) : Prop :=
  isFlushFn fn = true /\
  registered node fn (moduleState w) /\
  ~ In (EvCancel node) (log (moduleState w)) /\
  ~ In node (firedNodes w).

(** The host runs a flush task: it calls the function that was scheduled.
    (What the host does with a callback of the client is not described.) *)
Definition runFlushTask (decouple : bool) (syncLane : Z) (fuel : nat)
    (fn : HostCallback) (st : State) : option (Result unit) :=
  match fn with
  | Fn_flushSyncCallbackQueueImpl =>
      Some (flushSyncCallbackQueueImpl decouple syncLane fuel st)
  | Fn_flushSyncCallbackQueue =>
      Some (flushSyncCallbackQueue decouple syncLane fuel st)
  | Fn_callback _ => None
  end.

(** The call ended, by returning or by throwing, in state [st']. *)
Definition ends (r : Result unit) (st' : State) : Prop :=
  r = Ok tt st' \/ exists e, r = Throw e st'.

(** The fuel is enough for a drain of the queue as it is. *)
Definition enoughFuel (st : State) (fuel : nat) : Prop :=
  forall q A, syncQueue st = Some q -> arrays st !! q = Some A -> queueSize A < fuel.

(** The worlds that come about from module initialisation by calls of
    [scheduleSyncCallback], [flushSyncCallbackQueue], [scheduleCallback]
    and [cancelCallback] (on a task [scheduleCallback] returned) from
    outside a drain, and by the host running a pending flush task. *)
Inductive reachable (decouple : bool) (syncLane : Z) : World -> Prop :=
| reach_init (h : Host) (lane : Z) :
    reachable decouple syncLane (mkWorld (moduleInit h lane) [])
| reach_scheduleSyncCallback (w : World) (c : SchedulerCallback) :
    reachable decouple syncLane w ->
    reachable decouple syncLane
      (mkWorld (snd (scheduleSyncCallback c (moduleState w))) (firedNodes w))
| reach_flushSyncCallbackQueue (w : World) (fuel : nat) (st' : State) :
    reachable decouple syncLane w ->
    enoughFuel (moduleState w) fuel ->
    ends (flushSyncCallbackQueue decouple syncLane fuel (moduleState w)) st' ->
    reachable decouple syncLane (mkWorld st' (firedNodes w))
| reach_scheduleCallback (w : World) (level : Z) (c : SchedulerCallback)
    (options : option Z) (node : CallbackNode) (st' : State) :
    reachable decouple syncLane w ->
    scheduleCallback level c options (moduleState w) = Ok node st' ->
    reachable decouple syncLane (mkWorld st' (firedNodes w))
| reach_cancelCallback (w : World) (node : nat) (c : SchedulerCallback) :
    reachable decouple syncLane w ->
    registered node (Fn_callback c) (moduleState w) ->
    reachable decouple syncLane
      (mkWorld (cancelCallback (SchedulerNode node) (moduleState w)) (firedNodes w))
| reach_hostRuns (w : World) (node : nat) (fn : HostCallback) (fuel : nat)
    (r : Result unit) (st' : State) :
    reachable decouple syncLane w ->
    pendingFlush w node fn ->
    enoughFuel (moduleState w) fuel ->
    runFlushTask decouple syncLane fuel fn (moduleState w) = Some r ->
    ends r st' ->
    reachable decouple syncLane (mkWorld st' (node :: firedNodes w)).

(** What holds of every reachable world, apart from the pending flush:
    no drain is in progress, [syncQueue] refers to an array, and every task
    the module or the log mentions was handed out by the host, once. *)
Record settled (w : World) : Prop := {
  se_guard : isFlushingSyncQueue (moduleState w) = false;
  se_alloc : forall q, syncQueue (moduleState w) = Some q ->
             is_Some (arrays (moduleState w) !! q);
  se_stored : forall n, immediateQueueCallbackNode (moduleState w) = Some n ->
              n < hostNextNode (host (moduleState w));
  se_nodes : Forall (fun ev => forall n, eventNode ev = Some n ->
                                n < hostNextNode (host (moduleState w)))
               (log (moduleState w));
  se_fired : Forall (fun n => n < hostNextNode (host (moduleState w))) (firedNodes w);
  se_unique : forall n fn fn',
      registered n fn (moduleState w) -> registered n fn' (moduleState w) -> fn = fn'
}.

(** Queued work has a flush to come. *)
Definition queueHasPendingFlush (w : World) : Prop :=
  syncQueue (moduleState w) <> None -> exists node fn, pendingFlush w node fn.

(** * src/index.js: the store and the rendering of the page

    The values of the page are strings or [undefined].  The objects
    [{text, color}] live in a heap, [items], and are referred to by their
    index, so that an assignment to a field is seen through every
    reference; the application state object holds two such references and
    has an identity of its own, which [===] compares.  [Page] gathers what
    the script can change: the heap, the two DOM elements it writes, the
    console, and the variable [oldState]. *)

Inductive JsValue : Type :=
| JsUndefined
| JsString (s : string).

(** [a === b] on these values. *)
Definition strictEquals (a b : JsValue) : bool :=
  match a, b with
  | JsUndefined, JsUndefined => true
  | JsString x, JsString y => String.eqb x y
  | _, _ => false
  end.

Record TextItem : Type := mkTextItem {
  itemText : JsValue;
  itemColor : JsValue
}.

(** An application state object: its identity, and its [title] and
    [content] fields, references into the heap. *)
Record AppState : Type := mkAppState {
  appId : nat;
  title : nat;
  content : nat
}.

(** An action [{type, text, color}]; a field that is absent reads as
    [undefined]. *)
Record Action : Type := mkAction {
  actionType : JsValue;
  actionText : JsValue;
  actionColor : JsValue
}.

(** A DOM element, with the values last assigned to [innerHTML] and to
    [style.color]. *)
Record Element : Type := mkElement {
  innerHTML : JsValue;
  styleColor : JsValue
}.

Record Page : Type := mkPage {
  items : list TextItem;
  titleDOM : option Element;      (* document.getElementById('title') *)
  contentDOM : option Element;    (* document.getElementById('content') *)
  consoleLog : list string;
  oldState : option nat           (* the object [oldState] refers to *)
}.

Definition set_items (v : list TextItem) (p : Page) : Page :=
  mkPage v (titleDOM p) (contentDOM p) (consoleLog p) (oldState p).

Definition set_titleDOM (v : option Element) (p : Page) : Page :=
  mkPage (items p) v (contentDOM p) (consoleLog p) (oldState p).

Definition set_contentDOM (v : option Element) (p : Page) : Page :=
  mkPage (items p) (titleDOM p) v (consoleLog p) (oldState p).

Definition set_oldState (v : option nat) (p : Page) : Page :=
  mkPage (items p) (titleDOM p) (contentDOM p) (consoleLog p) v.

(** [console.log(message)]. *)
Definition console_log (message : string) (p : Page) : Page :=
  mkPage (items p) (titleDOM p) (contentDOM p) (consoleLog p ++ [message]) (oldState p).

(** A call returns, or throws (a [TypeError] on a property of [null] or
    [undefined]); the page is what the call left. *)
Inductive Outcome : Type :=
| Done (p : Page)
| Thrown (p : Page).

(** [stateChanger] (lines 18-29). *)
Definition stateChanger (state : AppState) (action : Action) (p : Page) : Outcome :=
  if strictEquals (actionType action) (JsString "UPDATE_TITLE_TEXT") then
    match items p !! title state with
    | Some item =>
        Done (set_items
                (<[title state := mkTextItem (actionText action) (itemColor item)]>
                   (items p)) p)
    | None => Thrown p
    end
  else if strictEquals (actionType action) (JsString "UPDATE_TITLE_COLOR") then
    match items p !! title state with
    | Some item =>
        Done (set_items
                (<[title state := mkTextItem (itemText item) (actionColor action)]>
                   (items p)) p)
    | None => Thrown p
    end
  else Done p.

(** What [createStore] returns (lines 36-51): the three closures share
    [state], [stateChanger] and the array [listeners]. A listener is a
    function of no argument; it acts on the page. *)
Record Store : Type := mkStore {
  storeState : AppState;
  storeChanger : AppState -> Action -> Page -> Outcome;
  storeListeners : list (Page -> Outcome)
}.

Definition createStore (state : AppState)
    (changer : AppState -> Action -> Page -> Outcome) : Store :=
  mkStore state changer [].

(** [subscribe]: [listeners.push(listener)], which returns the new length. *)
Definition subscribe (listener : Page -> Outcome) (store : Store) : nat * Store :=
  (length (storeListeners store) + 1,
   mkStore (storeState store) (storeChanger store) (storeListeners store ++ [listener])).

Definition getState (store : Store) : AppState := storeState store.

(** [listeners.forEach((listener) => listener())]. *)
Fixpoint forEachListener (listeners : list (Page -> Outcome)) (p : Page) : Outcome :=
  match listeners with
  | [] => Done p
  | listener :: rest =>
      match listener p with
      | Done p' => forEachListener rest p'
      | Thrown p' => Thrown p'
      end
  end.

Definition dispatch (action : Action) (store : Store) (p : Page) : Outcome :=
  match storeChanger store (storeState store) action p with
  | Done p1 => forEachListener (storeListeners store) p1
  | Thrown p1 => Thrown p1
  end.

(** [renderTitle] (lines 72-79). [oldTitle] is [None] when the argument is
    left out: the default [{}] is a new object, equal to nothing. *)
Definition renderTitle (newTitle : nat) (oldTitle : option nat) (p : Page) : Outcome :=
  if bool_decide (oldTitle = Some newTitle) then Done p
  else
    let p1 := console_log "render title..." p in
    match titleDOM p1, items p1 !! newTitle with
    | Some _, Some item =>
        Done (set_titleDOM (Some (mkElement (itemText item) (itemColor item))) p1)
    | _, _ => Thrown p1
    end.

(** [renderContent] (lines 85-92). *)
Definition renderContent (newContent : nat) (oldContent : option nat) (p : Page)
    : Outcome :=
  if bool_decide (oldContent = Some newContent) then Done p
  else
    let p1 := console_log "render content..." p in
    match contentDOM p1, items p1 !! newContent with
    | Some _, Some item =>
        Done (set_contentDOM (Some (mkElement (itemText item) (itemColor item))) p1)
    | _, _ => Thrown p1
    end.

(** [renderApp] (lines 98-104): it calls [renderTitle] and [renderContent]
    with one argument each. *)
Definition renderApp (newAppState : AppState) (oldAppState : option nat) (p : Page)
    : Outcome :=
  if bool_decide (oldAppState = Some (appId newAppState)) then Done p
  else
    let p1 := console_log "render app..." p in
    match renderTitle (title newAppState) None p1 with
    | Done p2 => renderContent (content newAppState) None p2
    | Thrown p2 => Thrown p2
    end.

(** The listener of lines 57-64. *)
Definition renderOnChange (store : Store) (p : Page) : Outcome :=
  let newState := getState store in
  match renderApp newState (oldState p) p with
  | Done p' => Done (set_oldState (Some (appId newState)) p')
  | Thrown p' => Thrown p'
  end.

(** Lines 53-64: the store is created, [oldState] is set to its state, and
    the listener is subscribed. *)
Definition setUp (appState : AppState) (p : Page) : Store * Page :=
  let store := createStore appState stateChanger in
  let p1 := set_oldState (Some (appId (getState store))) p in
  (snd (subscribe (renderOnChange store) store), p1).

(** Actions dispatched one after the other; a throw ends the run. *)
Fixpoint dispatchAll (actions : list Action) (store : Store) (p : Page) : Outcome :=
  match actions with
  | [] => Done p
  | action :: rest =>
      match dispatch action store p with
      | Done p' => dispatchAll rest store p'
      | Thrown p' => Thrown p'
      end
  end.

(** Listeners subscribed one after the other. *)
Definition subscribeAll (listeners : list (Page -> Outcome)) (store : Store) : Store :=
  foldl (fun s listener => snd (subscribe listener s)) store listeners.

(** A sample page and state. *)
Definition samplePage : Page :=
  mkPage [mkTextItem (JsString "Little book") (JsString "red");
          mkTextItem (JsString "Its content") (JsString "blue")]
    (Some (mkElement JsUndefined JsUndefined))
    (Some (mkElement JsUndefined JsUndefined)) [] None.

Definition sampleAppState : AppState := mkAppState 0 0 1.

Scheme SchedulerCallback_mut := Induction for SchedulerCallback Sort Prop
  with Behaviour_mut := Induction for Behaviour Sort Prop.

Combined Scheme callback_behaviour_mutind from SchedulerCallback_mut, Behaviour_mut.

(** ** Facts about the descriptions *)

Lemma queueSize_app (l1 l2 : list SchedulerCallback) :
  queueSize (l1 ++ l2) = queueSize l1 + queueSize l2.
Proof.
  induction l1 as [|c l1 IH]; simpl; [reflexivity|]. rewrite IH. lia.
Qed.

Lemma queueSize_enqueuedBy (c : SchedulerCallback) :
  queueSize (enqueuedBy c) < chainSize c.
Proof.
  apply (SchedulerCallback_mut
           (fun c => queueSize (enqueuedBy c) < chainSize c)
           (fun b => queueSize (behaviourEnqueued b) <= behaviourSize b));
    simpl; intros; try lia.
  specialize (H true). lia.
Qed.

Lemma neverThrows_chainError (c : SchedulerCallback) :
  neverThrows c = true -> chainError c = None.
Proof.
  apply (SchedulerCallback_mut
           (fun c => neverThrows c = true -> chainError c = None)
           (fun b => behaviourNeverThrows b = true -> behaviourError b = None));
    simpl; intros; auto; try discriminate.
  apply andb_prop in H1 as [_ H1]. auto.
Qed.

Lemma neverThrows_enqueuedBy (c : SchedulerCallback) :
  neverThrows c = true -> Forall (fun k => neverThrows k = true) (enqueuedBy c).
Proof.
  apply (SchedulerCallback_mut
           (fun c => neverThrows c = true ->
                     Forall (fun k => neverThrows k = true) (enqueuedBy c))
           (fun b => behaviourNeverThrows b = true ->
                     Forall (fun k => neverThrows k = true) (behaviourEnqueued b)));
    simpl; intros; auto; try discriminate.
  apply andb_prop in H1 as [Hc H1]. constructor; auto.
Qed.

Lemma keepsLane_enqueuedBy (c : SchedulerCallback) :
  keepsLane c = true -> Forall (fun k => keepsLane k = true) (enqueuedBy c).
Proof.
  apply (SchedulerCallback_mut
           (fun c => keepsLane c = true ->
                     Forall (fun k => keepsLane k = true) (enqueuedBy c))
           (fun b => behaviourKeepsLane b = true ->
                     Forall (fun k => keepsLane k = true) (behaviourEnqueued b)));
    simpl; intros; auto; try discriminate.
  apply andb_prop in H1 as [Hc H1]. constructor; auto.
Qed.

Lemma drop_after_middle {A : Type} (pre : list A) (c : A) (post : list A) :
  drop (length pre + 1) (pre ++ c :: post) = post.
Proof. induction pre as [|x pre IH]; simpl; auto. Qed.

Lemma invocations_app (l1 l2 : list Event) :
  invocations (l1 ++ l2) = invocations l1 ++ invocations l2.
Proof. apply omap_app. Qed.

Lemma registrations_app (l1 l2 : list Event) :
  registrations (l1 ++ l2) = registrations l1 ++ registrations l2.
Proof. apply omap_app. Qed.

Lemma drainStep_draining q A enq calls st st' :
  draining q A st -> drainStep q enq calls st st' -> draining q (A ++ enq) st'.
Proof.
  intros [Hg Hq Ha] [Hg' Hq' Ha' _]. split; auto.
Qed.

Lemma drainStep_trans q e1 e2 c1 c2 st st1 st2 :
  drainStep q e1 c1 st st1 -> drainStep q e2 c2 st1 st2 ->
  drainStep q (e1 ++ e2) (c1 ++ c2) st st2.
Proof.
  intros [_ _ Ha1 (ev1 & Hl1 & Hi1 & Hr1)] [Hg Hq Ha2 (ev2 & Hl2 & Hi2 & Hr2)].
  split; auto.
  - intros A HA. rewrite app_assoc. auto.
  - exists (ev1 ++ ev2). rewrite Hl2, Hl1, <- app_assoc.
    rewrite invocations_app, registrations_app, Hi1, Hi2, Hr1, Hr2. auto.
Qed.

Lemma drainStep_scheduleSyncCallback q A c st :
  draining q A st -> drainStep q [c] [] st (snd (scheduleSyncCallback c st)).
Proof.
  intros [Hg Hq Ha]. unfold scheduleSyncCallback. rewrite Hq. simpl.
  split; simpl; auto.
  - intros A' HA'. unfold readArray. rewrite HA'. simpl.
    apply list_lookup_insert_eq. eapply lookup_lt_Some; eauto.
  - exists []. rewrite app_nil_r. auto.
Qed.

Lemma drainStep_cancelImmediateQueueCallbackNode q A st :
  draining q A st -> drainStep q [] [] st (cancelImmediateQueueCallbackNode st).
Proof.
  intros [Hg Hq Ha]. unfold cancelImmediateQueueCallbackNode.
  destruct (immediateQueueCallbackNode st) as [node|]; split; simpl; auto.
  - intros A' HA'. rewrite app_nil_r. auto.
  - exists [EvCancel node]. auto.
  - intros A' HA'. rewrite app_nil_r. auto.
  - exists []. rewrite app_nil_r. auto.
Qed.

Lemma drainStep_setCurrentUpdateLanePriority q A lane st :
  draining q A st -> drainStep q [] [] st (setCurrentUpdateLanePriority lane st).
Proof.
  intros [Hg Hq Ha]. split; simpl; auto.
  - intros A' HA'. rewrite app_nil_r. auto.
  - exists []. rewrite app_nil_r. auto.
Qed.

Lemma drainStep_logEvent_invoke q A name isSync lane p st :
  draining q A st ->
  drainStep q [] [(name, isSync)] st (logEvent (EvInvoke name isSync lane p) st).
Proof.
  intros [Hg Hq Ha]. split; simpl; auto.
  - intros A' HA'. rewrite app_nil_r. auto.
  - exists [EvInvoke name isSync lane p]. auto.
Qed.

Lemma drainStep_refl q A st : draining q A st -> drainStep q [] [] st st.
Proof.
  intros [Hg Hq Ha]. split; auto.
  - intros A' HA'. rewrite app_nil_r. auto.
  - exists []. rewrite app_nil_r. auto.
Qed.

Lemma laneStep_refl st : laneStep st st.
Proof.
  split; [reflexivity|]. exists []. rewrite app_nil_r. split; [reflexivity|].
  constructor.
Qed.

Lemma laneStep_trans st st1 st2 :
  laneStep st st1 -> laneStep st1 st2 -> laneStep st st2.
Proof.
  intros [Hl1 (ev1 & Hlog1 & Hu1)] [Hl2 (ev2 & Hlog2 & Hu2)].
  split; [congruence|]. exists (ev1 ++ ev2).
  split; [rewrite Hlog2, Hlog1, <- app_assoc; reflexivity|].
  apply Forall_app. split; [exact Hu1|]. rewrite <- Hl1. exact Hu2.
Qed.

Lemma laneStep_logEvent_invoke name isSync p st :
  laneStep st (logEvent (EvInvoke name isSync (currentUpdateLanePriority st) p) st).
Proof.
  split; [reflexivity|]. eexists. split; [reflexivity|].
  constructor; [reflexivity|constructor].
Qed.

Lemma laneStep_scheduleSyncCallback c st :
  laneStep st (snd (scheduleSyncCallback c st)).
Proof.
  unfold scheduleSyncCallback. destruct (syncQueue st); simpl.
  - split; [reflexivity|]. exists []. simpl. rewrite app_nil_r.
    split; [reflexivity|constructor].
  - split; [reflexivity|]. eexists. split; [reflexivity|].
    constructor; [exact I|constructor].
Qed.

Lemma laneStep_cancelImmediateQueueCallbackNode st :
  laneStep st (cancelImmediateQueueCallbackNode st).
Proof.
  unfold cancelImmediateQueueCallbackNode.
  destruct (immediateQueueCallbackNode st); simpl.
  - split; [reflexivity|]. eexists. split; [reflexivity|].
    constructor; [exact I|constructor].
  - apply laneStep_refl.
Qed.

Section DrainFacts.

Variable reentrantFlush : State -> Result unit.
Variable q : nat.

(** Inside a drain the guard is set: a call of [flushSyncCallbackQueue]
    cancels the pending request and returns. *)
Hypothesis reentrantFlush_guarded : forall st,
  isFlushingSyncQueue st = true ->
  reentrantFlush st = Ok tt (cancelImmediateQueueCallbackNode st).

Lemma doWhile_chain_and_behaviour :
  (forall c, chainSpec reentrantFlush q c) /\
  (forall b, behaviourSpec reentrantFlush q b).
Proof.
  apply callback_behaviour_mutind; unfold chainSpec, behaviourSpec.
  - intros name body IH n st A Hn Hd. simpl in Hn.
    destruct n as [|n]; [lia|].
    set (ev := EvInvoke name true (currentUpdateLanePriority st)
                 (hostPriorityLevel (host st))).
    pose proof (drainStep_logEvent_invoke q A name true
                  (currentUpdateLanePriority st) (hostPriorityLevel (host st))
                  st Hd) as Hlog.
    fold ev in Hlog.
    pose proof (drainStep_draining _ _ _ _ _ _ Hd Hlog) as Hd1.
    destruct (IH true n (logEvent ev st) _ ltac:(lia) Hd1)
      as (st' & Heq & Hstep & Hlane).
    exists st'. split; [exact Heq|]. split; [|split].
    + exact (drainStep_trans _ _ _ _ _ _ _ _ Hlog Hstep).
    + destruct Hstep as [_ _ _ (evs & Hl & _)]. exists evs.
      rewrite Hl. simpl. rewrite <- app_assoc. reflexivity.
    + intros Hk. eapply laneStep_trans; [|exact (Hlane Hk)].
      apply laneStep_logEvent_invoke.
  - intros n st A _ Hd. exists st. split; [reflexivity|].
    split; [eapply drainStep_refl; eauto|]. intros _. apply laneStep_refl.
  - intros k IH n st A Hn Hd. simpl in Hn.
    destruct (IH n st A Hn Hd) as (st' & Heq & Hstep & _ & Hlane).
    exists st'. split; [exact Heq|]. split; assumption.
  - intros e n st A _ Hd. exists st. split; [reflexivity|].
    split; [eapply drainStep_refl; eauto|]. intros _. apply laneStep_refl.
  - intros c _ rest IH n st A Hn Hd. simpl in Hn.
    pose proof (drainStep_scheduleSyncCallback q A c st Hd) as H1.
    pose proof (drainStep_draining _ _ _ _ _ _ Hd H1) as Hd1.
    destruct (IH n _ _ ltac:(lia) Hd1) as (st' & Heq & Hstep & Hlane).
    exists st'. split; [exact Heq|]. split.
    + exact (drainStep_trans _ _ _ _ _ _ _ _ H1 Hstep).
    + intros Hk. simpl in Hk. apply andb_prop in Hk as [_ Hk].
      eapply laneStep_trans; [|exact (Hlane Hk)].
      apply laneStep_scheduleSyncCallback.
  - intros rest IH n st A Hn Hd. simpl in Hn. simpl.
    rewrite (reentrantFlush_guarded st (dr_guard _ _ _ Hd)).
    pose proof (drainStep_cancelImmediateQueueCallbackNode q A st Hd) as H1.
    pose proof (drainStep_draining _ _ _ _ _ _ Hd H1) as Hd1.
    destruct (IH n _ _ Hn Hd1) as (st' & Heq & Hstep & Hlane).
    exists st'. split; [exact Heq|]. split.
    + exact (drainStep_trans _ _ _ _ _ _ _ _ H1 Hstep).
    + intros Hk. eapply laneStep_trans; [|exact (Hlane Hk)].
      apply laneStep_cancelImmediateQueueCallbackNode.
  - intros lane rest IH n st A Hn Hd. simpl in Hn.
    pose proof (drainStep_setCurrentUpdateLanePriority q A lane st Hd) as H1.
    pose proof (drainStep_draining _ _ _ _ _ _ Hd H1) as Hd1.
    destruct (IH n _ _ Hn Hd1) as (st' & Heq & Hstep & _).
    exists st'. split; [exact Heq|]. split.
    + exact (drainStep_trans _ _ _ _ _ _ _ _ H1 Hstep).
    + intros Hk. discriminate Hk.
Qed.

Lemma doWhile_spec c n st A :
  chainSize c <= n -> draining q A st ->
  exists st',
    doWhile reentrantFlush n c st = endResult (chainError c) st' /\
    drainStep q (enqueuedBy c) (chainCalls c) st st' /\
    (exists evs,
        log st' = log st ++
          EvInvoke (callbackName c) true (currentUpdateLanePriority st)
            (hostPriorityLevel (host st)) :: evs) /\
    (keepsLane c = true -> laneStep st st').
Proof. apply (proj1 doWhile_chain_and_behaviour). Qed.

Lemma readArray_draining A st : draining q A st -> readArray q st = A.
Proof. intros [_ _ Ha]. unfold readArray. rewrite Ha. reflexivity. Qed.

Lemma forLoop_exit n i st :
  readArray q st !! i = None ->
  forLoop reentrantFlush n q i st = (i, Ok tt st).
Proof. intros H. destruct n; simpl; rewrite H; reflexivity. Qed.

Lemma forLoop_iteration n i st c :
  readArray q st !! i = Some c ->
  forLoop reentrantFlush (S n) q i st =
    match doWhile reentrantFlush n c st with
    | Ok _ st' => forLoop reentrantFlush n q (S i) st'
    | Throw e st' => (i, Throw e st')
    | OutOfFuel => (i, OutOfFuel)
    end.
Proof. intros H. simpl. rewrite H. reflexivity. Qed.

(** A loop over callbacks that never throw runs every entry of the array
    from [i] on, the entries pushed meanwhile included. *)
Lemma forLoop_neverThrows n : forall i st A,
  draining q A st -> i <= length A ->
  Forall (fun c => neverThrows c = true) (drop i A) ->
  queueSize (drop i A) < n ->
  exists st' F evs,
    forLoop reentrantFlush n q i st = (length F, Ok tt st') /\
    draining q F st' /\
    F = A ++ flat_map enqueuedBy (drop i F) /\
    log st' = log st ++ evs /\
    invocations evs = flat_map chainCalls (drop i F) /\
    registrations evs = [].
Proof.
  induction n as [|n IH]; intros i st A Hd Hi Hall Hn; [lia|].
  destruct (A !! i) as [c|] eqn:Hc.
  - rewrite (drop_S _ _ _ Hc) in Hall, Hn. simpl in Hn.
    apply Forall_cons in Hall as [Hcq Hall].
    rewrite (forLoop_iteration n i st c)
      by (rewrite (readArray_draining A st Hd); exact Hc).
    destruct (doWhile_spec c n st A ltac:(lia) Hd) as (st1 & Heq & Hstep & _).
    rewrite Heq, (neverThrows_chainError c Hcq). simpl.
    pose proof (drainStep_draining _ _ _ _ _ _ Hd Hstep) as Hd1.
    pose proof (lookup_lt_Some _ _ _ Hc) as Hlt.
    pose proof (queueSize_enqueuedBy c) as Hsz.
    destruct (IH (S i) st1 (A ++ enqueuedBy c) Hd1) as (st' & F & evs & HF).
    + rewrite length_app. lia.
    + rewrite drop_app_le by lia. apply Forall_app. split; [exact Hall|].
      apply neverThrows_enqueuedBy; exact Hcq.
    + rewrite drop_app_le by lia. rewrite queueSize_app. lia.
    + destruct HF as (Hrun & Hd' & HFeq & Hlog & Hinv & Hreg).
      assert (HFi : F !! i = Some c).
      { rewrite HFeq. rewrite <- app_assoc. apply lookup_app_l_Some. exact Hc. }
      destruct Hstep as [_ _ _ (evs1 & Hl1 & Hi1 & Hr1)].
      exists st', F, (evs1 ++ evs). split; [exact Hrun|]. split; [exact Hd'|].
      rewrite (drop_S _ _ _ HFi). simpl.
      split; [rewrite app_assoc; exact HFeq|].
      split; [rewrite Hlog, Hl1, <- app_assoc; reflexivity|].
      rewrite invocations_app, registrations_app, Hi1, Hr1, Hinv, Hreg. auto.
  - apply lookup_ge_None in Hc. assert (i = length A) by lia. subst i.
    rewrite forLoop_exit
      by (rewrite (readArray_draining A st Hd); apply lookup_ge_None; lia).
    exists st, A, []. rewrite drop_all. simpl. rewrite !app_nil_r.
    split; [reflexivity|]. split; [exact Hd|]. repeat split; auto.
Qed.

(** When the first callback whose chain throws is the entry after [pre],
    the loop stops there with [i] at that entry. *)
Lemma forLoop_throws pre : forall n st done c post e,
  draining q (done ++ pre ++ c :: post) st ->
  Forall (fun p => chainError p = None) pre ->
  chainError c = Some e ->
  queueSize (pre ++ c :: post) < n ->
  exists st' evs,
    forLoop reentrantFlush n q (length done) st
      = (length (done ++ pre), Throw e st') /\
    draining q (done ++ pre ++ c :: post ++ flat_map enqueuedBy (pre ++ [c])) st' /\
    log st' = log st ++ evs /\
    invocations evs = flat_map chainCalls (pre ++ [c]) /\
    registrations evs = [].
Proof.
  induction pre as [|p pre IH]; intros n st done c post e Hd Hpre Hc Hn;
    (destruct n as [|n]; [lia|]).
  - simpl in Hd, Hn.
    assert (Hlk : (done ++ c :: post) !! length done = Some c)
      by (rewrite lookup_app_r, Nat.sub_diag by lia; reflexivity).
    rewrite (forLoop_iteration n _ st c)
      by (rewrite (readArray_draining _ st Hd); exact Hlk).
    destruct (doWhile_spec c n st _ ltac:(lia) Hd) as (st1 & Heq & Hstep & _).
    rewrite Heq, Hc. simpl.
    pose proof (drainStep_draining _ _ _ _ _ _ Hd Hstep) as Hd1.
    destruct Hstep as [_ _ _ (evs1 & Hl1 & Hi1 & Hr1)].
    exists st1, evs1. rewrite !app_nil_r.
    split; [reflexivity|]. split; [|auto].
    rewrite <- app_assoc in Hd1. exact Hd1.
  - simpl in Hn. apply Forall_cons in Hpre as [Hp Hpre].
    assert (Hlk : (done ++ (p :: pre) ++ c :: post) !! length done = Some p)
      by (rewrite lookup_app_r, Nat.sub_diag by lia; reflexivity).
    rewrite (forLoop_iteration n _ st p)
      by (rewrite (readArray_draining _ st Hd); exact Hlk).
    destruct (doWhile_spec p n st _ ltac:(lia) Hd) as (st1 & Heq & Hstep & _).
    rewrite Heq, Hp. simpl.
    pose proof (drainStep_draining _ _ _ _ _ _ Hd Hstep) as Hd1.
    pose proof (queueSize_enqueuedBy p) as Hsz.
    destruct (IH n st1 (done ++ [p]) c (post ++ enqueuedBy p) e)
      as (st' & evs & Hrun & Hd' & Hlog & Hinv & Hreg); auto.
    + replace ((done ++ [p]) ++ pre ++ c :: post ++ enqueuedBy p)
        with ((done ++ (p :: pre) ++ c :: post) ++ enqueuedBy p); [exact Hd1|].
      rewrite <- ?app_assoc; simpl; rewrite <- ?app_assoc; reflexivity.
    + rewrite queueSize_app in *. simpl in *. rewrite queueSize_app. lia.
    + destruct Hstep as [_ _ _ (evs1 & Hl1 & Hi1 & Hr1)].
      exists st', (evs1 ++ evs).
      split.
      { replace (S (length done)) with (length (done ++ [p]))
          by (rewrite length_app; simpl; lia).
        rewrite Hrun. rewrite !length_app. simpl. f_equal. lia. }
      split.
      { match goal with
        | |- draining _ ?L _ =>
            replace L
              with ((done ++ [p]) ++ pre ++ c :: (post ++ enqueuedBy p) ++
                      flat_map enqueuedBy (pre ++ [c])); [exact Hd'|]
        end.
        rewrite <- ?app_assoc; simpl; rewrite <- ?app_assoc; reflexivity. }
      split; [rewrite Hlog, Hl1, <- app_assoc; reflexivity|].
      rewrite invocations_app, registrations_app, Hi1, Hr1, Hinv, Hreg. auto.
Qed.

(** With enough fuel the loop ends, by running off the array or by an
    exception; the first thing it does is call the entry at [i]; when no
    callback sets the lane priority, all its calls are made under the one
    it starts with. *)
Lemma forLoop_total n : forall i st A,
  draining q A st ->
  queueSize (drop i A) < n ->
  exists j st' F,
    draining q F st' /\
    (forLoop reentrantFlush n q i st = (j, Ok tt st') \/
     exists e, forLoop reentrantFlush n q i st = (j, Throw e st')) /\
    (exists evs,
        log st' = log st ++ evs /\
        forall c, A !! i = Some c ->
          exists evs',
            evs = EvInvoke (callbackName c) true (currentUpdateLanePriority st)
                    (hostPriorityLevel (host st)) :: evs') /\
    (Forall (fun c => keepsLane c = true) (drop i A) -> laneStep st st').
Proof.
  induction n as [|n IH]; intros i st A Hd Hn; [lia|].
  destruct (A !! i) as [c|] eqn:Hc.
  - rewrite (drop_S _ _ _ Hc) in Hn |- *. simpl in Hn.
    rewrite (forLoop_iteration n i st c)
      by (rewrite (readArray_draining A st Hd); exact Hc).
    destruct (doWhile_spec c n st A ltac:(lia) Hd)
      as (st1 & Heq & Hstep & (evs1 & Hl1) & Hlane1).
    rewrite Heq.
    pose proof (drainStep_draining _ _ _ _ _ _ Hd Hstep) as Hd1.
    pose proof (lookup_lt_Some _ _ _ Hc) as Hlt.
    pose proof (queueSize_enqueuedBy c) as Hsz.
    destruct (chainError c) as [e|]; simpl.
    + exists i, st1, (A ++ enqueuedBy c). split; [exact Hd1|].
      split; [right; exists e; reflexivity|]. split.
      * eexists. split; [exact Hl1|]. intros c' Hc'. inversion Hc'. eauto.
      * intros Hk. apply Forall_cons in Hk as [Hk _]. exact (Hlane1 Hk).
    + destruct (IH (S i) st1 (A ++ enqueuedBy c) Hd1)
        as (j & st' & F & Hd' & Hrun & (evs & Hlog & _) & Hlane).
      { rewrite drop_app_le by lia. rewrite queueSize_app. lia. }
      exists j, st', F. split; [exact Hd'|]. split; [exact Hrun|]. split.
      * eexists. split.
        -- rewrite Hlog, Hl1, <- app_assoc. simpl. reflexivity.
        -- intros c' Hc'. inversion Hc'. eauto.
      * intros Hk. apply Forall_cons in Hk as [Hk Hks].
        eapply laneStep_trans; [exact (Hlane1 Hk)|]. apply Hlane.
        rewrite drop_app_le by lia. apply Forall_app. split; [exact Hks|].
        apply keepsLane_enqueuedBy. exact Hk.
  - rewrite forLoop_exit
      by (rewrite (readArray_draining A st Hd); exact Hc).
    exists i, st, A. split; [exact Hd|]. split; [left; reflexivity|]. split.
    + exists []. rewrite app_nil_r. split; [reflexivity|].
      intros c Hc'. discriminate.
    + intros _. apply laneStep_refl.
Qed.

(** The entries ahead of index [k] are the first [k] entries of the
    array as it stands when the loop reaches [k]. *)
Lemma entriesBefore_take k : forall A ahead,
  entriesBefore k A = Some ahead ->
  length ahead = k /\ take k (A ++ flat_map enqueuedBy ahead) = ahead.
Proof.
  induction k as [|k IH]; intros A ahead He; simpl in He.
  - injection He as <-. split; [reflexivity|apply take_0].
  - destruct (entriesBefore k A) as [done|] eqn:Hdone; [|discriminate].
    destruct ((A ++ flat_map enqueuedBy done) !! k) as [c|] eqn:Hc; [|discriminate].
    destruct (chainError c); [discriminate|]. injection He as <-.
    destruct (IH A done Hdone) as [Hlen Htake].
    split; [rewrite length_app; simpl; lia|].
    pose proof (lookup_lt_Some _ _ _ Hc) as Hlt.
    rewrite flat_map_app, app_assoc, take_app_le by lia.
    rewrite (take_S_r _ _ _ Hc), Htake. reflexivity.
Qed.

(** The loop goes through the entries ahead of index [k] and reaches
    [k], without a request to the host. *)
Lemma forLoop_entriesBefore k : forall n st A ahead,
  draining q A st ->
  queueSize A < n ->
  entriesBefore k A = Some ahead ->
  exists n' st' evs,
    forLoop reentrantFlush n q 0 st = forLoop reentrantFlush n' q k st' /\
    draining q (A ++ flat_map enqueuedBy ahead) st' /\
    queueSize (drop k (A ++ flat_map enqueuedBy ahead)) < n' /\
    log st' = log st ++ evs /\
    invocations evs = flat_map chainCalls ahead /\
    registrations evs = [].
Proof.
  induction k as [|k IH]; intros n st A ahead Hd Hn He; simpl in He.
  - injection He as <-. exists n, st, []. simpl. rewrite !app_nil_r.
    split; [reflexivity|]. split; [exact Hd|]. split; [exact Hn|]. auto.
  - destruct (entriesBefore k A) as [done|] eqn:Hdone; [|discriminate].
    destruct ((A ++ flat_map enqueuedBy done) !! k) as [c|] eqn:Hc; [|discriminate].
    destruct (chainError c) eqn:Herr; [discriminate|]. injection He as <-.
    destruct (IH n st A done Hd Hn Hdone)
      as (n' & st1 & evs1 & Hrun & Hd1 & Hn1 & Hl1 & Hi1 & Hr1).
    rewrite (drop_S _ _ _ Hc) in Hn1. simpl in Hn1.
    destruct n' as [|m]; [lia|].
    rewrite Hrun, (forLoop_iteration m k st1 c)
      by (rewrite (readArray_draining _ st1 Hd1); exact Hc).
    destruct (doWhile_spec c m st1 _ ltac:(lia) Hd1) as (st2 & Heq & Hstep & _).
    rewrite Heq, Herr. simpl.
    pose proof (drainStep_draining _ _ _ _ _ _ Hd1 Hstep) as Hd2.
    pose proof (queueSize_enqueuedBy c) as Hsz.
    pose proof (lookup_lt_Some _ _ _ Hc) as Hlt.
    destruct Hstep as [_ _ _ (evs2 & Hl2 & Hi2 & Hr2)].
    assert (Harr : A ++ flat_map enqueuedBy (done ++ [c])
                   = (A ++ flat_map enqueuedBy done) ++ enqueuedBy c).
    { rewrite flat_map_app. simpl. rewrite app_nil_r, app_assoc. reflexivity. }
    exists m, st2, (evs1 ++ evs2). rewrite Harr.
    split; [reflexivity|]. split; [exact Hd2|].
    split; [rewrite drop_app_le, queueSize_app by lia; lia|].
    split; [rewrite Hl2, Hl1, <- app_assoc; reflexivity|].
    rewrite invocations_app, registrations_app, Hi1, Hr1, Hi2, Hr2.
    rewrite flat_map_app. simpl. rewrite app_nil_r. auto.
Qed.

(** With enough fuel the loop ends; the array has only grown, and so has
    the log. *)
Lemma forLoop_ends n : forall i st A,
  draining q A st ->
  queueSize (drop i A) < n ->
  exists j st' more evs,
    (forLoop reentrantFlush n q i st = (j, Ok tt st') \/
     exists e, forLoop reentrantFlush n q i st = (j, Throw e st')) /\
    draining q (A ++ more) st' /\
    log st' = log st ++ evs.
Proof.
  induction n as [|n IH]; intros i st A Hd Hn; [lia|].
  destruct (A !! i) as [c|] eqn:Hc.
  - rewrite (drop_S _ _ _ Hc) in Hn. simpl in Hn.
    rewrite (forLoop_iteration n i st c)
      by (rewrite (readArray_draining A st Hd); exact Hc).
    destruct (doWhile_spec c n st A ltac:(lia) Hd) as (st1 & Heq & Hstep & _).
    rewrite Heq.
    pose proof (drainStep_draining _ _ _ _ _ _ Hd Hstep) as Hd1.
    pose proof (lookup_lt_Some _ _ _ Hc) as Hlt.
    pose proof (queueSize_enqueuedBy c) as Hsz.
    destruct Hstep as [_ _ _ (evs1 & Hl1 & _)].
    destruct (chainError c) as [e|]; simpl.
    + exists i, st1, (enqueuedBy c), evs1.
      split; [right; exists e; reflexivity|]. auto.
    + destruct (IH (S i) st1 (A ++ enqueuedBy c) Hd1)
        as (j & st' & more & evs & Hrun & Hd' & Hlog).
      { rewrite drop_app_le by lia. rewrite queueSize_app. lia. }
      exists j, st', (enqueuedBy c ++ more), (evs1 ++ evs).
      split; [exact Hrun|]. rewrite app_assoc. split; [exact Hd'|].
      rewrite Hlog, Hl1, <- app_assoc. reflexivity.
  - rewrite forLoop_exit
      by (rewrite (readArray_draining A st Hd); exact Hc).
    exists i, st, [], []. rewrite !app_nil_r. auto.
Qed.

(** When no entry ahead of index [k] throws, the loop runs the entry at
    [k], whatever that entry and the entries behind it do. *)
Lemma forLoop_reaches k n st A ahead c :
  draining q A st ->
  queueSize A < n ->
  entriesBefore k A = Some ahead ->
  (A ++ flat_map enqueuedBy ahead) !! k = Some c ->
  exists j st' behind evs evs',
    (forLoop reentrantFlush n q 0 st = (j, Ok tt st') \/
     exists e, forLoop reentrantFlush n q 0 st = (j, Throw e st')) /\
    draining q (ahead ++ c :: behind) st' /\
    log st' = log st ++ evs ++ evs' /\
    invocations evs = flat_map chainCalls ahead ++ chainCalls c /\
    registrations evs = [].
Proof.
  intros Hd Hn He Hc.
  destruct (forLoop_entriesBefore k n st A ahead Hd Hn He)
    as (n' & st1 & evs1 & Hrun & Hd1 & Hn1 & Hl1 & Hi1 & Hr1).
  destruct (entriesBefore_take k A ahead He) as [Hlen Htake].
  pose proof (take_drop_middle _ _ _ Hc) as Hsplit. rewrite Htake in Hsplit.
  set (X := A ++ flat_map enqueuedBy ahead) in *.
  rewrite (drop_S _ _ _ Hc) in Hn1. simpl in Hn1.
  destruct n' as [|m]; [lia|].
  rewrite Hrun, (forLoop_iteration m k st1 c)
    by (rewrite (readArray_draining _ st1 Hd1); exact Hc).
  destruct (doWhile_spec c m st1 _ ltac:(lia) Hd1) as (st2 & Heq & Hstep & _).
  rewrite Heq.
  pose proof (drainStep_draining _ _ _ _ _ _ Hd1 Hstep) as Hd2.
  pose proof (queueSize_enqueuedBy c) as Hsz.
  pose proof (lookup_lt_Some _ _ _ Hc) as Hlt.
  destruct Hstep as [_ _ _ (evs2 & Hl2 & Hi2 & Hr2)].
  assert (Hcalls : invocations (evs1 ++ evs2)
                   = flat_map chainCalls ahead ++ chainCalls c)
    by (rewrite invocations_app, Hi1, Hi2; reflexivity).
  assert (Hregs : registrations (evs1 ++ evs2) = [])
    by (rewrite registrations_app, Hr1, Hr2; reflexivity).
  destruct (chainError c) as [e|]; simpl.
  - exists k, st2, (drop (S k) X ++ enqueuedBy c), (evs1 ++ evs2), [].
    split; [right; exists e; reflexivity|].
    split; [rewrite <- Hsplit, <- app_assoc in Hd2; exact Hd2|].
    split; [rewrite app_nil_r, Hl2, Hl1, <- app_assoc; reflexivity|]. auto.
  - destruct (forLoop_ends m (S k) st2 (X ++ enqueuedBy c) Hd2)
      as (j & st' & more & evs3 & Hend & Hd' & Hl3).
    { rewrite drop_app_le by lia. rewrite queueSize_app. lia. }
    exists j, st', (drop (S k) X ++ enqueuedBy c ++ more), (evs1 ++ evs2), evs3.
    split; [exact Hend|].
    split; [rewrite <- Hsplit, <- !app_assoc in Hd'; exact Hd'|].
    split; [rewrite Hl3, Hl2, Hl1, <- !app_assoc; reflexivity|]. auto.
Qed.

End DrainFacts.

(** ** Entering and leaving a drain *)

Section FlushFacts.

Variable decoupleUpdatePriorityFromScheduler : bool.
Variable SyncLanePriority : Z.

Local Abbreviation flushImpl :=
  (flushSyncCallbackQueueImpl decoupleUpdatePriorityFromScheduler SyncLanePriority).
Local Abbreviation flush :=
  (flushSyncCallbackQueue decoupleUpdatePriorityFromScheduler SyncLanePriority).
Local Abbreviation reentrant :=
  (reentrantFlushOf decoupleUpdatePriorityFromScheduler SyncLanePriority).
Local Abbreviation entry :=
  (drainEntry decoupleUpdatePriorityFromScheduler SyncLanePriority).
Local Abbreviation cleanup :=
  (drainCleanup decoupleUpdatePriorityFromScheduler).

Lemma flushImpl_guarded fuel st :
  isFlushingSyncQueue st = true -> flushImpl fuel st = Ok tt st.
Proof. intros H. destruct fuel; simpl; rewrite H; reflexivity. Qed.

Lemma flushImpl_null fuel st :
  syncQueue st = None -> flushImpl fuel st = Ok tt st.
Proof.
  intros H. destruct fuel; simpl; rewrite H;
    destruct (isFlushingSyncQueue st); reflexivity.
Qed.

Lemma reentrantFlushOf_guarded fuel st :
  isFlushingSyncQueue st = true ->
  reentrant (S fuel) st = Ok tt (cancelImmediateQueueCallbackNode st).
Proof.
  intros H. simpl. unfold flushSyncCallbackQueue, flushSyncCallbackQueue_with.
  apply flushImpl_guarded.
  unfold cancelImmediateQueueCallbackNode.
  destruct (immediateQueueCallbackNode st); exact H.
Qed.

Lemma flushImpl_unfold fuel st :
  flushImpl fuel st =
    match isFlushingSyncQueue st, syncQueue st with
    | false, Some queue =>
        let st1 := set_isFlushingSyncQueue true st in
        if decoupleUpdatePriorityFromScheduler then
          finally
            (fun s => set_isFlushingSyncQueue false
                        (setCurrentUpdateLanePriority
                           (getCurrentUpdateLanePriority st1) s))
            (tryCatch (reentrant fuel) fuel queue
               (setCurrentUpdateLanePriority SyncLanePriority) st1)
        else
          finally (set_isFlushingSyncQueue false)
            (tryCatch (reentrant fuel) fuel queue (fun s => s) st1)
    | _, _ => Ok tt st
    end.
Proof. destruct fuel; reflexivity. Qed.

Lemma reactPriorityToSchedulerPriority_Immediate st :
  reactPriorityToSchedulerPriority ImmediatePriority st
    = Ok Scheduler_ImmediatePriority st.
Proof. reflexivity. Qed.

Lemma flushImpl_enter fuel st q :
  isFlushingSyncQueue st = false -> syncQueue st = Some q ->
  flushImpl fuel st =
    finally (cleanup st)
      (match forLoop (reentrant fuel) fuel q 0 (entry st) with
       | (_, Ok _ st') =>
           Ok tt (set_syncQueue None
                    (set_hostPriorityLevel (hostPriorityLevel (host st)) st'))
       | (i, Throw e st') =>
           catchBlock i e (set_hostPriorityLevel (hostPriorityLevel (host st)) st')
       | (_, OutOfFuel) => OutOfFuel
       end).
Proof.
  intros Hg Hq. rewrite flushImpl_unfold, Hg, Hq.
  unfold drainCleanup, drainEntry, tryCatch, runWithPriority,
    Scheduler_runWithPriority.
  destruct decoupleUpdatePriorityFromScheduler;
    rewrite reactPriorityToSchedulerPriority_Immediate; cbv beta iota zeta;
    match goal with
    | |- context [forLoop ?f ?n ?q ?i ?s] =>
        destruct (forLoop f n q i s) as [j [a s'|e s'|]]
    end; reflexivity.
Qed.

Lemma draining_drainEntry q A st :
  syncQueue st = Some q -> arrays st !! q = Some A ->
  draining q A (entry st).
Proof.
  intros Hq Ha. unfold drainEntry.
  destruct decoupleUpdatePriorityFromScheduler; split; simpl; auto.
Qed.

Lemma log_drainEntry st : log (entry st) = log st.
Proof.
  unfold drainEntry. destruct decoupleUpdatePriorityFromScheduler; reflexivity.
Qed.

Lemma catchBlock_spec i e st q F :
  syncQueue st = Some q -> arrays st !! q = Some F ->
  exists st',
    catchBlock i e st = Throw e st' /\
    syncQueue st' = Some (length (arrays st)) /\
    arrays st' !! length (arrays st) = Some (drop (i + 1) F) /\
    log st' = log st ++
      [EvSchedule Scheduler_ImmediatePriority Fn_flushSyncCallbackQueue None
         (hostNextNode (host st))] /\
    isFlushingSyncQueue st' = isFlushingSyncQueue st /\
    currentUpdateLanePriority st' = currentUpdateLanePriority st.
Proof.
  intros Hq Ha. unfold catchBlock, sliceArray, newArray, readArray.
  rewrite Hq, Ha. simpl. eexists. split; [reflexivity|]. simpl.
  split; [reflexivity|]. split; [|auto].
  apply list_lookup_middle. reflexivity.
Qed.

(** A drain of callbacks that never throw. *)
Lemma flushImpl_neverThrows fuel st q A :
  isFlushingSyncQueue st = false -> syncQueue st = Some q ->
  arrays st !! q = Some A ->
  Forall (fun c => neverThrows c = true) A ->
  queueSize A < fuel ->
  exists st' F evs,
    flushImpl fuel st = Ok tt st' /\
    syncQueue st' = None /\
    isFlushingSyncQueue st' = false /\
    arrays st' !! q = Some F /\
    F = A ++ flat_map enqueuedBy F /\
    log st' = log st ++ evs /\
    invocations evs = flat_map chainCalls F /\
    registrations evs = [].
Proof.
  intros Hg Hq Ha Hall Hn. destruct fuel as [|f]; [lia|].
  rewrite (flushImpl_enter _ _ _ Hg Hq).
  destruct (forLoop_neverThrows (reentrant (S f)) q
              (reentrantFlushOf_guarded f) (S f) 0 (entry st) A)
    as (st' & F & evs & Hrun & Hd' & HF & Hlog & Hinv & Hreg); auto.
  - apply draining_drainEntry; assumption.
  - lia.
  - rewrite Hrun. simpl. eexists. exists F, evs.
    split; [reflexivity|]. destruct Hd' as [_ _ Ha'].
    rewrite log_drainEntry in Hlog. unfold drainCleanup.
    destruct decoupleUpdatePriorityFromScheduler; simpl; repeat split; auto.
Qed.

(** A drain whose entry after [pre] is the first to throw. *)
Lemma flushImpl_throws fuel st q pre c post e :
  isFlushingSyncQueue st = false -> syncQueue st = Some q ->
  arrays st !! q = Some (pre ++ c :: post) ->
  Forall (fun p => chainError p = None) pre ->
  chainError c = Some e ->
  queueSize (pre ++ c :: post) < fuel ->
  exists st' q' evs node,
    flushImpl fuel st = Throw e st' /\
    syncQueue st' = Some q' /\
    arrays st' !! q' = Some (post ++ flat_map enqueuedBy (pre ++ [c])) /\
    isFlushingSyncQueue st' = false /\
    log st' = log st ++ evs ++
      [EvSchedule Scheduler_ImmediatePriority Fn_flushSyncCallbackQueue None node] /\
    invocations evs = flat_map chainCalls (pre ++ [c]) /\
    registrations evs = [].
Proof.
  intros Hg Hq Ha Hpre Hc Hn. destruct fuel as [|f]; [lia|].
  rewrite (flushImpl_enter _ _ _ Hg Hq).
  destruct (forLoop_throws (reentrant (S f)) q
              (reentrantFlushOf_guarded f) pre (S f) (entry st) [] c post e)
    as (st' & evs & Hrun & Hd' & Hlog & Hinv & Hreg); auto.
  - apply draining_drainEntry; assumption.
  - cbn [length app] in Hrun, Hd'. rewrite Hrun.
    set (st1 := set_hostPriorityLevel (hostPriorityLevel (host st)) st').
    destruct Hd' as [Hg' Hq' Ha'].
    destruct (catchBlock_spec (length pre) e st1 q _ Hq' Ha')
      as (st2 & Hcatch & Hq2 & Ha2 & Hl2 & Hg2 & _).
    rewrite Hcatch. simpl.
    exists (cleanup st st2), (length (arrays st1)), evs,
      (hostNextNode (host st1)).
    split; [reflexivity|].
    rewrite log_drainEntry in Hlog.
    replace (drop (length pre + 1)
               (pre ++ c :: post ++ flat_map enqueuedBy (pre ++ [c])))
      with (post ++ flat_map enqueuedBy (pre ++ [c])) in Ha2.
    2: { symmetry. apply drop_after_middle. }
    unfold drainCleanup.
    destruct decoupleUpdatePriorityFromScheduler; simpl; repeat split; auto;
      rewrite Hl2; unfold st1; simpl; rewrite Hlog, <- app_assoc; reflexivity.
Qed.

(** The [catch] block leaves the array of the drain as it is. *)
Lemma catchBlock_keeps_array i e st q F :
  syncQueue st = Some q -> arrays st !! q = Some F ->
  exists st' node,
    catchBlock i e st = Throw e st' /\
    arrays st' !! q = Some F /\
    log st' = log st ++
      [EvSchedule Scheduler_ImmediatePriority Fn_flushSyncCallbackQueue None node].
Proof.
  intros Hq Ha. unfold catchBlock, sliceArray, newArray, readArray.
  rewrite Hq, Ha. simpl. eexists. eexists. split; [reflexivity|]. simpl.
  split; [apply lookup_app_l_Some; exact Ha|reflexivity].
Qed.

(** A drain in which no entry ahead of index [k] throws runs the entry at
    [k]. *)
Lemma flushImpl_reaches fuel st q A k ahead c :
  isFlushingSyncQueue st = false -> syncQueue st = Some q ->
  arrays st !! q = Some A ->
  queueSize A < fuel ->
  entriesBefore k A = Some ahead ->
  (A ++ flat_map enqueuedBy ahead) !! k = Some c ->
  runsInSamePass ahead c q st (flushImpl fuel st).
Proof.
  intros Hg Hq Ha Hn He Hc. destruct fuel as [|f]; [lia|].
  rewrite (flushImpl_enter _ _ _ Hg Hq).
  destruct (forLoop_reaches (reentrant (S f)) q (reentrantFlushOf_guarded f)
              k (S f) (entry st) A ahead c)
    as (j & stL & behind & evs & evs' & Hrun & Hd & Hlog & Hinv & Hreg); auto.
  - apply draining_drainEntry; assumption.
  - rewrite log_drainEntry in Hlog. destruct Hd as [_ Hq' Ha'].
    destruct Hrun as [Hrun|[e Hrun]]; rewrite Hrun.
    + eexists. exists behind, evs, evs'. split; [left; reflexivity|].
      unfold drainCleanup.
      destruct decoupleUpdatePriorityFromScheduler; simpl; auto.
    + set (st1 := set_hostPriorityLevel (hostPriorityLevel (host st)) stL).
      destruct (catchBlock_keeps_array j e st1 q _ Hq' Ha')
        as (st2 & node & Hcatch & Ha2 & Hl2).
      rewrite Hcatch. simpl.
      exists (cleanup st st2), behind, evs,
        (evs' ++ [EvSchedule Scheduler_ImmediatePriority
                    Fn_flushSyncCallbackQueue None node]).
      split; [right; exists e; reflexivity|].
      unfold drainCleanup.
      destruct decoupleUpdatePriorityFromScheduler; simpl;
        (split; [exact Ha2|]); (split; [|auto]);
        rewrite Hl2; unfold st1; simpl; rewrite Hlog, <- !app_assoc; reflexivity.
Qed.

End FlushFacts.

(** ** Filling the queue *)

Lemma cancelImmediateQueueCallbackNode_frame st :
  syncQueue (cancelImmediateQueueCallbackNode st) = syncQueue st /\
  isFlushingSyncQueue (cancelImmediateQueueCallbackNode st) = isFlushingSyncQueue st /\
  arrays (cancelImmediateQueueCallbackNode st) = arrays st /\
  currentUpdateLanePriority (cancelImmediateQueueCallbackNode st)
    = currentUpdateLanePriority st /\
  exists evs,
    log (cancelImmediateQueueCallbackNode st) = log st ++ evs /\
    invocations evs = [] /\ registrations evs = [].
Proof.
  unfold cancelImmediateQueueCallbackNode.
  destruct (immediateQueueCallbackNode st) as [node|]; simpl; repeat split.
  - exists [EvCancel node]. auto.
  - exists []. rewrite app_nil_r. auto.
Qed.

Lemma scheduleSyncCallbacks_push l : forall st q A,
  syncQueue st = Some q -> arrays st !! q = Some A ->
  syncQueue (scheduleSyncCallbacks l st) = Some q /\
  arrays (scheduleSyncCallbacks l st) !! q = Some (A ++ l) /\
  isFlushingSyncQueue (scheduleSyncCallbacks l st) = isFlushingSyncQueue st /\
  immediateQueueCallbackNode (scheduleSyncCallbacks l st)
    = immediateQueueCallbackNode st /\
  log (scheduleSyncCallbacks l st) = log st.
Proof.
  induction l as [|c l IH]; intros st q A Hq Ha.
  - simpl. rewrite app_nil_r. auto.
  - change (scheduleSyncCallbacks (c :: l) st)
      with (scheduleSyncCallbacks l (snd (scheduleSyncCallback c st))).
    replace (snd (scheduleSyncCallback c st)) with (pushArray q c st)
      by (unfold scheduleSyncCallback; rewrite Hq; reflexivity).
    destruct (IH (pushArray q c st) q (A ++ [c])) as (H1 & H2 & H3 & H4 & H5).
    + exact Hq.
    + unfold pushArray, readArray. rewrite Ha. simpl.
      apply list_lookup_insert_eq. eapply lookup_lt_Some; eauto.
    + rewrite <- app_assoc in H2. auto.
Qed.

Lemma scheduleSyncCallbacks_create c l st :
  syncQueue st = None ->
  syncQueue (scheduleSyncCallbacks (c :: l) st) = Some (length (arrays st)) /\
  arrays (scheduleSyncCallbacks (c :: l) st) !! length (arrays st) = Some (c :: l) /\
  isFlushingSyncQueue (scheduleSyncCallbacks (c :: l) st) = isFlushingSyncQueue st /\
  immediateQueueCallbackNode (scheduleSyncCallbacks (c :: l) st)
    = Some (hostNextNode (host st)) /\
  log (scheduleSyncCallbacks (c :: l) st) = log st ++
    [EvSchedule Scheduler_ImmediatePriority Fn_flushSyncCallbackQueueImpl None
       (hostNextNode (host st))].
Proof.
  intros Hq.
  change (scheduleSyncCallbacks (c :: l) st)
    with (scheduleSyncCallbacks l (snd (scheduleSyncCallback c st))).
  unfold scheduleSyncCallback. rewrite Hq. simpl.
  match goal with
  | |- context [scheduleSyncCallbacks l ?s] =>
      destruct (scheduleSyncCallbacks_push l s (length (arrays st)) [c])
        as (H1 & H2 & H3 & H4 & H5)
  end; simpl; auto.
  apply list_lookup_middle. reflexivity.
Qed.

(** ** The claims *)

(** C3. The two priority translations are inverse to each other on the
    five levels: when the host's ambient priority is one of the five
    Scheduler values [x], [getCurrentPriorityLevel] returns a level that
    [reactPriorityToSchedulerPriority] sends back to [x]; and a React level
    [y] among Immediate, UserBlocking, Normal, Low and Idle is sent to a
    Scheduler value under which [getCurrentPriorityLevel] returns [y]. *)
Theorem priority_translation_roundtrip (st : State) (x y : Z) :
  In x schedulerPriorityLevels ->
  In y reactPriorityLevels ->
  (exists level,
      getCurrentPriorityLevel (set_hostPriorityLevel x st)
        = Ok level (set_hostPriorityLevel x st) /\
      reactPriorityToSchedulerPriority level st = Ok x st) /\
  (exists p,
      reactPriorityToSchedulerPriority y st = Ok p st /\
      getCurrentPriorityLevel (set_hostPriorityLevel p st)
        = Ok y (set_hostPriorityLevel p st)).
Proof.
  intros Hx Hy. split.
  - simpl in Hx.
    destruct Hx as [<-|[<-|[<-|[<-|[<-|[]]]]]]; eexists; split; reflexivity.
  - simpl in Hy.
    destruct Hy as [<-|[<-|[<-|[<-|[<-|[]]]]]]; eexists; split; reflexivity.
Qed.

Lemma priority_translation_roundtrip_witness :
  (exists level,
      getCurrentPriorityLevel
        (set_hostPriorityLevel 2 (moduleInit (mkHost 0 3 0) 0))
        = Ok level (set_hostPriorityLevel 2 (moduleInit (mkHost 0 3 0) 0)) /\
      reactPriorityToSchedulerPriority level (moduleInit (mkHost 0 3 0) 0)
        = Ok 2%Z (moduleInit (mkHost 0 3 0) 0)) /\
  (exists p,
      reactPriorityToSchedulerPriority 96 (moduleInit (mkHost 0 3 0) 0)
        = Ok p (moduleInit (mkHost 0 3 0) 0) /\
      getCurrentPriorityLevel
        (set_hostPriorityLevel p (moduleInit (mkHost 0 3 0) 0))
        = Ok 96%Z (set_hostPriorityLevel p (moduleInit (mkHost 0 3 0) 0))).
Proof.
  apply (priority_translation_roundtrip (moduleInit (mkHost 0 3 0) 0) 2 96).
  - simpl. auto.
  - simpl. auto 6.
Defined.

(** C8. A priority outside the five levels makes the translation throw the
    invariant failure "Unknown priority level." in both directions, in any
    state: [getCurrentPriorityLevel] when the host's ambient priority is
    not one of the five Scheduler values, [reactPriorityToSchedulerPriority]
    on any value that is not one of the five React levels, whatever the
    host's ambient priority is, and on [NoPriority] in particular.  The
    state is left as it was. *)
Theorem unknown_priority_fails_loudly (st : State) (y : Z) :
  (~ In (Scheduler_getCurrentPriorityLevel st) schedulerPriorityLevels ->
     getCurrentPriorityLevel st = Throw unknownPriorityLevel st) /\
  (~ In y reactPriorityLevels ->
     reactPriorityToSchedulerPriority y st = Throw unknownPriorityLevel st) /\
  reactPriorityToSchedulerPriority NoPriority st = Throw unknownPriorityLevel st.
Proof.
  split; [|split; [|reflexivity]].
  - intros Hx.
    unfold getCurrentPriorityLevel, schedulerPriorityToReactPriority.
    set (x := Scheduler_getCurrentPriorityLevel st) in *.
    repeat match goal with
           | |- context [Z.eqb x ?k] =>
               destruct (Z.eqb_spec x k) as [Heq|_];
                 [exfalso; apply Hx; rewrite Heq; simpl; tauto|]
           end.
    reflexivity.
  - intros Hy. unfold reactPriorityToSchedulerPriority.
    repeat match goal with
           | |- context [Z.eqb y ?k] =>
               destruct (Z.eqb_spec y k) as [Heq|_];
                 [exfalso; apply Hy; rewrite Heq; simpl; tauto|]
           end.
    reflexivity.
Qed.

Lemma unknown_priority_fails_loudly_witness :
  getCurrentPriorityLevel (set_hostPriorityLevel 0 sampleState)
    = Throw unknownPriorityLevel (set_hostPriorityLevel 0 sampleState) /\
  reactPriorityToSchedulerPriority 94 sampleState
    = Throw unknownPriorityLevel sampleState /\
  reactPriorityToSchedulerPriority Scheduler_NormalPriority sampleState
    = Throw unknownPriorityLevel sampleState /\
  reactPriorityToSchedulerPriority NoPriority sampleState
    = Throw unknownPriorityLevel sampleState.
Proof.
  split; [|split; [|split]].
  - apply (proj1 (unknown_priority_fails_loudly
                    (set_hostPriorityLevel 0 sampleState) 94)).
    cbv. intuition discriminate.
  - apply (proj1 (proj2 (unknown_priority_fails_loudly sampleState 94))).
    cbv. intuition discriminate.
  - apply (proj1 (proj2 (unknown_priority_fails_loudly sampleState
                           Scheduler_NormalPriority))).
    cbv. intuition discriminate.
  - apply (proj2 (proj2 (unknown_priority_fails_loudly sampleState 94))).
Defined.

(** ** Binary64 numbers

    Facts about the comparison and the subtraction of floats that the
    clock needs, proved from the specification of the primitive
    operations. *)

Lemma SFcompare_antisym x y c :
  SFcompare x y = Some c -> SFcompare y x = Some (CompOpp c).
Proof.
  destruct x as [[]|[]| |[] mx ex], y as [[]|[]| |[] my ey]; simpl;
    try discriminate; intros H; injection H as <-; try reflexivity;
    rewrite (Z.compare_antisym ex ey); destruct (ex ?= ey)%Z; simpl;
    try reflexivity;
    pose proof (Pos.compare_cont_antisym mx my Eq) as Ha; simpl in Ha;
    rewrite <- Ha; destruct (Pos.compare_cont Eq mx my); reflexivity.
Qed.

Lemma leb_not_ltb (x y : float) :
  (x <=? y)%float = true -> (y <? x)%float = false.
Proof.
  rewrite FloatAxioms.leb_spec, FloatAxioms.ltb_spec. unfold SFleb, SFltb.
  destruct (SFcompare (Prim2SF x) (Prim2SF y)) as [c|] eqn:H; [|discriminate].
  rewrite (SFcompare_antisym _ _ _ H). destruct c; simpl; congruence.
Qed.

(** Two numbers, neither of them NaN, are comparable. *)
Lemma ltb_or_leb (x y : float) :
  (x =? x)%float = true -> (y =? y)%float = true ->
  (x <? y)%float = true \/ (y <=? x)%float = true.
Proof.
  rewrite !FloatAxioms.eqb_spec, FloatAxioms.ltb_spec, FloatAxioms.leb_spec. unfold SFeqb, SFltb, SFleb.
  intros Hx Hy.
  destruct (SFcompare (Prim2SF x) (Prim2SF y)) as [c|] eqn:H.
  - rewrite (SFcompare_antisym _ _ _ H). destruct c; simpl; auto.
  - exfalso.
    destruct (Prim2SF x) as [[]|[]| |[] mx ex], (Prim2SF y) as [[]|[]| |[] my ey];
      simpl in *; discriminate.
Qed.

Lemma SFsub_diag s m e :
  SF64sub (S754_finite s m e) (S754_finite s m e) = S754_zero false.
Proof.
  unfold SF64sub, SFsub. cbv zeta. rewrite Z.sub_diag. reflexivity.
Qed.

(** [x - x] is [+0] for every finite [x]. *)
Lemma sub_diag_finite (x : float) :
  (neg_infinity <? x)%float = true -> (x <? infinity)%float = true ->
  (x - x)%float = 0%float.
Proof.
  rewrite !FloatAxioms.ltb_spec. intros H1 H2. apply Prim2SF_inj. rewrite FloatAxioms.sub_spec.
  destruct (Prim2SF x) as [[]|[]| |s m e]; try discriminate; try reflexivity.
  apply SFsub_diag.
Qed.

Lemma shr_1_nonneg mrs : (0 <= shr_m mrs)%Z -> (0 <= shr_m (shr_1 mrs))%Z.
Proof.
  destruct mrs as [[|[p|p|]|p] r s]; simpl; lia.
Qed.

Lemma iter_pos_shr_1_nonneg p : forall mrs,
  (0 <= shr_m mrs)%Z -> (0 <= shr_m (SpecFloat.iter_pos shr_1 p mrs))%Z.
Proof.
  induction p as [p IH|p IH|]; intros mrs H; simpl.
  - apply IH, IH, shr_1_nonneg, H.
  - apply IH, IH, H.
  - apply shr_1_nonneg, H.
Qed.

Lemma shr_fexp_nonneg m e l :
  (0 <= m)%Z -> (0 <= shr_m (fst (shr_fexp prec emax m e l)))%Z.
Proof.
  intros H. unfold shr_fexp, shr.
  assert (H0 : (0 <= shr_m (shr_record_of_loc m l))%Z)
    by (destruct l as [|[]]; exact H).
  destruct (fexp prec emax (Zdigits2 m + e) - e)%Z; simpl; auto.
  apply iter_pos_shr_1_nonneg, H0.
Qed.

Lemma round_nearest_even_nonneg m l :
  (0 <= m)%Z -> (0 <= round_nearest_even m l)%Z.
Proof.
  intros H. destruct l as [|[]]; simpl; try destruct (Z.even m); lia.
Qed.

(** Rounding a mantissa that is not negative gives a number that is not
    negative, and not NaN. *)
Lemma binary_round_aux_nonneg m e l :
  (0 <= m)%Z ->
  SFleb (S754_zero false) (binary_round_aux prec emax false m e l) = true.
Proof.
  intros H. unfold binary_round_aux.
  pose proof (shr_fexp_nonneg m e l H) as H1.
  destruct (shr_fexp prec emax m e l) as [mrs' e']. simpl in H1.
  pose proof (shr_fexp_nonneg _ e' loc_Exact
                (round_nearest_even_nonneg _ (loc_of_shr_record mrs') H1)) as H2.
  destruct (shr_fexp prec emax _ e' loc_Exact) as [mrs'' e'']. simpl in H2.
  destruct (shr_m mrs'') as [|p|p]; [reflexivity| |lia].
  destruct (e'' <=? emax - prec)%Z; reflexivity.
Qed.

Lemma binary_normalize_nonneg m e :
  (0 <= m)%Z ->
  SFleb (S754_zero false) (binary_normalize prec emax m e false) = true.
Proof.
  intros H. destruct m as [|p|p]; [reflexivity| |lia].
  unfold binary_normalize, binary_round.
  destruct (shl_align _ _ _) as [mz ez]. apply binary_round_aux_nonneg. lia.
Qed.

Lemma digits2_pos_size m : digits2_pos m = Pos.size m.
Proof. induction m; simpl; congruence. Qed.

Lemma iter_xO_double m d : (2 * Zpos m <= Zpos (Pos.iter xO m d))%Z.
Proof.
  induction d as [|d IH] using Pos.peano_ind.
  - simpl. lia.
  - rewrite Pos.iter_succ. lia.
Qed.

(** The mantissa of a binary64 number has at most 53 digits, and exactly
    53 above the smallest exponent. *)
Lemma valid_binary_digits m e :
  valid_binary (S754_finite false m e) = true ->
  (Zpos (digits2_pos m) <= prec)%Z /\
  (SpecFloat.emin prec emax <= e)%Z /\
  ((SpecFloat.emin prec emax < e)%Z -> Zpos (digits2_pos m) = prec).
Proof.
  unfold SpecFloat.valid_binary, bounded, canonical_mantissa, fexp.
  intros H. apply andb_prop in H as [H _]. apply Z.eqb_eq in H. lia.
Qed.

Lemma SFsub_nonneg x mc ec :
  valid_binary x = true ->
  valid_binary (S754_finite false mc ec) = true ->
  SFleb (S754_finite false mc ec) x = true ->
  SFleb (S754_zero false) (SF64sub x (S754_finite false mc ec)) = true.
Proof.
  intros Vx Vc Hle.
  destruct x as [[]|[]| |[] mx ex]; try discriminate; try reflexivity.
  unfold SF64sub, SFsub. cbv zeta. apply binary_normalize_nonneg.
  unfold cond_Zopp. unfold SFleb in Hle. simpl in Hle.
  destruct (Z.compare_spec ec ex) as [Heq|Hlt|Hgt]; [| |discriminate].
  - subst ex. rewrite Z.min_id. unfold shl_align. rewrite Z.sub_diag. simpl.
    rewrite Pos.compare_cont_spec in Hle. simpl in Hle.
    destruct (Pos.compare_spec mc mx); try discriminate; lia.
  - rewrite Z.min_r by lia. unfold shl_align. rewrite Z.sub_diag.
    destruct (ec - ex)%Z as [|d|d] eqn:Hd; try lia. simpl.
    pose proof (iter_xO_double mx d) as Hdouble.
    destruct (valid_binary_digits mx ex Vx) as (_ & _ & Hx).
    destruct (valid_binary_digits mc ec Vc) as (Hc & Hemin & _).
    specialize (Hx ltac:(lia)).
    rewrite digits2_pos_size in Hx, Hc.
    pose proof (Pos.size_gt mc) as Hgt.
    pose proof (Pos.size_le mx) as Hle2.
    assert (Zpos mc < 2 ^ prec)%Z.
    { eapply Z.lt_le_trans;
        [|apply Z.pow_le_mono_r with (b := Zpos (Pos.size mc)); lia].
      rewrite <- Pos2Z.inj_pow. lia. }
    assert (2 ^ prec <= 2 * Zpos mx)%Z.
    { rewrite <- Hx, <- Pos2Z.inj_pow. lia. }
    lia.
Qed.

(** Subtracting a positive finite number from one that is not smaller
    gives a number that is not negative (and not NaN). *)
Lemma sub_nonneg (a c : float) :
  (0 <? c)%float = true -> (c <? infinity)%float = true ->
  (c <=? a)%float = true -> (0 <=? a - c)%float = true.
Proof.
  rewrite !FloatAxioms.ltb_spec, !FloatAxioms.leb_spec, FloatAxioms.sub_spec. intros H0 H1 H2.
  pose proof (Prim2SF_valid a) as Va. pose proof (Prim2SF_valid c) as Vc.
  destruct (Prim2SF c) as [[]|[]| |[] mc ec]; try discriminate.
  exact (SFsub_nonneg _ mc ec Va Vc H2).
Qed.

Lemma leb_zero_trans (c a : float) :
  (0 <=? c)%float = true -> (c <=? a)%float = true -> (0 <=? a)%float = true.
Proof.
  rewrite !FloatAxioms.leb_spec. change (Prim2SF 0) with (S754_zero false).
  destruct (Prim2SF c) as [[]|[]| |[] mc ec], (Prim2SF a) as [[]|[]| |[] ma ea];
    try discriminate; try reflexivity.
Qed.

Lemma ltb_leb_trans_zero (k c : float) :
  (0 <? k)%float = true -> (k <=? c)%float = true -> (0 <? c)%float = true.
Proof.
  rewrite !FloatAxioms.ltb_spec, FloatAxioms.leb_spec. change (Prim2SF 0) with (S754_zero false).
  destruct (Prim2SF k) as [[]|[]| |[] mk ek], (Prim2SF c) as [[]|[]| |[] mc ec];
    try discriminate; try reflexivity.
Qed.

Lemma ltb_infinity_neg_infinity (c : float) :
  (0 <? c)%float = true -> (neg_infinity <? c)%float = true.
Proof.
  rewrite !FloatAxioms.ltb_spec. change (Prim2SF 0) with (S754_zero false).
  change (Prim2SF neg_infinity) with (S754_infinity true).
  destruct (Prim2SF c) as [[]|[]| |[] mc ec]; try discriminate; reflexivity.
Qed.

(** C9. [now] is normalised against the host clock read at module
    initialisation.  [initialTimeMs] is that reading.  When it is below
    10000, [now] is the host clock as it is; when it is 10000 or more,
    [now] is the host clock minus [initialTimeMs] (the binary64
    difference), so a reading taken while the host clock still shows its
    initial, finite value is [+0].  One of the two cases applies whenever
    the initial reading is a number (not NaN). *)
Theorem now_normalized (h : Host) (lane : Z) (st : State) :
  initialTimeMs (moduleInit h lane) = Scheduler_now (moduleInit h lane) /\
  ((initialTimeMs st <? 10000)%float = true -> now st = Scheduler_now st) /\
  ((10000 <=? initialTimeMs st)%float = true ->
     now st = (Scheduler_now st - initialTimeMs st)%float /\
     ((initialTimeMs st <? infinity)%float = true ->
      Scheduler_now st = initialTimeMs st -> now st = 0%float)) /\
  ((initialTimeMs st =? initialTimeMs st)%float = true ->
     (initialTimeMs st <? 10000)%float = true \/
     (10000 <=? initialTimeMs st)%float = true).
Proof.
  split; [reflexivity|]. unfold now. split; [|split].
  - intros H. rewrite H. reflexivity.
  - intros H. rewrite (leb_not_ltb _ _ H). split; [reflexivity|].
    intros Hfin Heq. rewrite Heq. apply sub_diag_finite; [|exact Hfin].
    apply ltb_infinity_neg_infinity.
    apply (ltb_leb_trans_zero 10000); [reflexivity|exact H].
  - intros H. apply ltb_or_leb; [exact H|reflexivity].
Qed.

Lemma now_normalized_witness :
  now (set_host (mkHost 1700000000500 3 0)
         (moduleInit (mkHost 1700000000000 3 0) 0)) = 500%float /\
  now (set_host (mkHost 4000.25 3 0) (moduleInit (mkHost 120.5 3 0) 0))
    = 4000.25%float /\
  now (moduleInit (mkHost 1700000000000 3 0) 0) = 0%float.
Proof.
  split; [|split].
  - rewrite (proj1 (proj1 (proj2 (proj2 (now_normalized (mkHost 0 0 0) 0
               (set_host (mkHost 1700000000500 3 0)
                  (moduleInit (mkHost 1700000000000 3 0) 0)))))
               ltac:(reflexivity))).
    reflexivity.
  - apply (proj1 (proj2 (now_normalized (mkHost 0 0 0) 0
             (set_host (mkHost 4000.25 3 0) (moduleInit (mkHost 120.5 3 0) 0))))
             ltac:(reflexivity)).
  - apply (proj2 (proj1 (proj2 (proj2 (now_normalized (mkHost 0 0 0) 0
               (moduleInit (mkHost 1700000000000 3 0) 0))))
               ltac:(reflexivity))); reflexivity.
Defined.

(** C4. While a drain is in progress ([isFlushingSyncQueue] is set), a
    call of [flushSyncCallbackQueueImpl] returns at once and leaves the
    state, log included, as it was: no callback is called and the loop is
    not entered again.  [flushSyncCallbackQueue] called then only cancels
    the pending request: the queue, its array, the guard and the callback
    calls of the log are as before. *)
Theorem reentrant_drain_is_noop (decouple : bool) (syncLane : Z) (fuel : nat)
    (st : State) :
  isFlushingSyncQueue st = true ->
  flushSyncCallbackQueueImpl decouple syncLane fuel st = Ok tt st /\
  exists st',
    flushSyncCallbackQueue decouple syncLane fuel st = Ok tt st' /\
    isFlushingSyncQueue st' = true /\
    syncQueue st' = syncQueue st /\
    arrays st' = arrays st /\
    invocations (log st') = invocations (log st).
Proof.
  intros Hg. split; [apply flushImpl_guarded; exact Hg|].
  destruct (cancelImmediateQueueCallbackNode_frame st)
    as (Hq & Hg' & Ha & _ & evs & Hl & Hi & _).
  exists (cancelImmediateQueueCallbackNode st).
  split; [|split; [congruence|split; [exact Hq|split; [exact Ha|]]]].
  - unfold flushSyncCallbackQueue, flushSyncCallbackQueue_with.
    apply flushImpl_guarded. congruence.
  - rewrite Hl, invocations_app, Hi, app_nil_r. reflexivity.
Qed.

Lemma reentrant_drain_is_noop_witness :
  flushSyncCallbackQueueImpl true 15 3 sampleDraining = Ok tt sampleDraining /\
  exists st',
    flushSyncCallbackQueue true 15 3 sampleDraining = Ok tt st' /\
    isFlushingSyncQueue st' = true /\
    syncQueue st' = syncQueue sampleDraining /\
    arrays st' = arrays sampleDraining /\
    invocations (log st') = invocations (log sampleDraining).
Proof.
  apply (reentrant_drain_is_noop true 15 3 sampleDraining). reflexivity.
Defined.

(** C6. [scheduleSyncCallback] returns [fakeCallbackNode], on which
    [cancelCallback] changes nothing (the host's cancel is not called).
    When [syncQueue] is [null], it becomes a new array holding the one
    callback, and exactly one request, for [flushSyncCallbackQueueImpl] at
    the Scheduler's Immediate priority, is made to the host, whose task is
    kept in [immediateQueueCallbackNode].  When [syncQueue] is an array,
    the callback is pushed on that array and no request is made. *)
Theorem scheduleSyncCallback_enqueues (c : SchedulerCallback) (st : State) :
  (forall q, syncQueue st = Some q -> q < length (arrays st)) ->
  fst (scheduleSyncCallback c st) = fakeCallbackNode /\
  (forall s, cancelCallback (fst (scheduleSyncCallback c st)) s = s) /\
  match syncQueue st with
  | None =>
      exists q,
        arrays st !! q = None /\
        syncQueue (snd (scheduleSyncCallback c st)) = Some q /\
        readArray q (snd (scheduleSyncCallback c st)) = [c] /\
        immediateQueueCallbackNode (snd (scheduleSyncCallback c st))
          = Some (hostNextNode (host st)) /\
        log (snd (scheduleSyncCallback c st)) = log st ++
          [EvSchedule Scheduler_ImmediatePriority Fn_flushSyncCallbackQueueImpl
             None (hostNextNode (host st))]
  | Some q =>
      syncQueue (snd (scheduleSyncCallback c st)) = Some q /\
      readArray q (snd (scheduleSyncCallback c st)) = readArray q st ++ [c] /\
      immediateQueueCallbackNode (snd (scheduleSyncCallback c st))
        = immediateQueueCallbackNode st /\
      host (snd (scheduleSyncCallback c st)) = host st /\
      log (snd (scheduleSyncCallback c st)) = log st
  end.
Proof.
  intros Hwf. unfold scheduleSyncCallback.
  destruct (syncQueue st) as [q|] eqn:Hq; simpl.
  - split; [reflexivity|]. split; [reflexivity|].
    split; [assumption|]. split; [|auto].
    unfold readArray. simpl.
    rewrite list_lookup_insert_eq by (apply Hwf; reflexivity). reflexivity.
  - split; [reflexivity|]. split; [reflexivity|].
    exists (length (arrays st)).
    split; [apply lookup_ge_None; lia|]. split; [reflexivity|].
    split; [|auto].
    unfold readArray. simpl.
    rewrite list_lookup_middle by reflexivity. reflexivity.
Qed.

Lemma scheduleSyncCallback_enqueues_witness :
  fst (scheduleSyncCallback (cbDone 3) (sampleQueued [cbDone 1])) = fakeCallbackNode /\
  (forall s,
      cancelCallback (fst (scheduleSyncCallback (cbDone 3) (sampleQueued [cbDone 1]))) s
        = s) /\
  syncQueue (snd (scheduleSyncCallback (cbDone 3) (sampleQueued [cbDone 1]))) = Some 0 /\
  readArray 0 (snd (scheduleSyncCallback (cbDone 3) (sampleQueued [cbDone 1])))
    = readArray 0 (sampleQueued [cbDone 1]) ++ [cbDone 3] /\
  immediateQueueCallbackNode (snd (scheduleSyncCallback (cbDone 3) (sampleQueued [cbDone 1])))
    = immediateQueueCallbackNode (sampleQueued [cbDone 1]) /\
  host (snd (scheduleSyncCallback (cbDone 3) (sampleQueued [cbDone 1])))
    = host (sampleQueued [cbDone 1]) /\
  log (snd (scheduleSyncCallback (cbDone 3) (sampleQueued [cbDone 1])))
    = log (sampleQueued [cbDone 1]).
Proof.
  apply (scheduleSyncCallback_enqueues (cbDone 3) (sampleQueued [cbDone 1])).
  intros q Hq. injection Hq as <-. simpl. lia.
Defined.

(** C7. [flushSyncCallbackQueue] is [flushSyncCallbackQueueImpl] run in
    the same call, from the state in which the stored task, when there is
    one, has been cleared from [immediateQueueCallbackNode] and cancelled
    with the host; nothing else differs in that state, and the drain is
    run whether or not there was a task. *)
Theorem flushSyncCallbackQueue_cancels_then_drains (decouple : bool)
    (syncLane : Z) (fuel : nat) (st : State) :
  exists st1,
    flushSyncCallbackQueue decouple syncLane fuel st
      = flushSyncCallbackQueueImpl decouple syncLane fuel st1 /\
    immediateQueueCallbackNode st1 = None /\
    log st1 = log st ++
      match immediateQueueCallbackNode st with
      | Some node => [EvCancel node]
      | None => []
      end /\
    syncQueue st1 = syncQueue st /\
    isFlushingSyncQueue st1 = isFlushingSyncQueue st /\
    arrays st1 = arrays st /\
    currentUpdateLanePriority st1 = currentUpdateLanePriority st /\
    host st1 = host st.
Proof.
  exists (cancelImmediateQueueCallbackNode st).
  split; [reflexivity|]. unfold cancelImmediateQueueCallbackNode.
  destruct (immediateQueueCallbackNode st) as [node|] eqn:Hn; simpl.
  - repeat split.
  - rewrite app_nil_r. repeat split. exact Hn.
Qed.

Lemma drainsAll_flushImpl decouple syncLane fuel cbs st st1 q :
  isFlushingSyncQueue st1 = false -> syncQueue st1 = Some q ->
  arrays st1 !! q = Some cbs ->
  invocations (log st1) = invocations (log st) ->
  Forall (fun c => neverThrows c = true) cbs ->
  queueSize cbs < fuel ->
  drainsAll cbs st (flushSyncCallbackQueueImpl decouple syncLane fuel st1).
Proof.
  intros Hg Hq Ha Hl Hall Hn.
  destruct (flushImpl_neverThrows decouple syncLane fuel st1 q cbs Hg Hq Ha Hall Hn)
    as (st' & F & evs & Hrun & Hq' & Hg' & _ & HF & Hlog & Hinv & _).
  exists st', (flat_map enqueuedBy F).
  rewrite <- HF. split; [exact Hrun|]. split; [exact Hq'|]. split; [exact Hg'|].
  split; [|reflexivity].
  rewrite Hlog, invocations_app, Hl, Hinv. reflexivity.
Qed.

(** C1. Callbacks that never throw are enqueued with
    [scheduleSyncCallback], one after the other, starting with no queue
    and no drain in progress.  Then a drain with enough fuel, started by
    the host ([flushSyncCallbackQueueImpl]) or by [flushSyncCallbackQueue],
    succeeds; it calls every chain once, in the order of enqueueing, each
    callback and each continuation with [isSync = true], and a chain is
    run to its [null] before the next entry is started; [syncQueue] is
    [null] afterwards. *)
Theorem sync_queue_drains_in_order (decouple : bool) (syncLane : Z)
    (cbs : list SchedulerCallback) (st : State) (fuel : nat) :
  syncQueue st = None ->
  isFlushingSyncQueue st = false ->
  Forall (fun c => neverThrows c = true) cbs ->
  queueSize cbs < fuel ->
  drainsAll cbs st
    (flushSyncCallbackQueueImpl decouple syncLane fuel (scheduleSyncCallbacks cbs st)) /\
  drainsAll cbs st
    (flushSyncCallbackQueue decouple syncLane fuel (scheduleSyncCallbacks cbs st)).
Proof.
  intros Hq Hg Hall Hn. destruct cbs as [|c l].
  - simpl. split.
    + exists st, []. rewrite flushImpl_null by exact Hq. simpl.
      rewrite app_nil_r. auto.
    + destruct (cancelImmediateQueueCallbackNode_frame st)
        as (Hq' & Hg' & _ & _ & evs & Hl & Hi & _).
      exists (cancelImmediateQueueCallbackNode st), [].
      unfold flushSyncCallbackQueue, flushSyncCallbackQueue_with.
      rewrite flushImpl_null by congruence. simpl.
      rewrite Hl, invocations_app, Hi, !app_nil_r.
      split; [reflexivity|]. split; [congruence|]. split; [congruence|]. auto.
  - destruct (scheduleSyncCallbacks_create c l st Hq) as (Hq1 & Ha1 & Hg1 & _ & Hl1).
    set (st1 := scheduleSyncCallbacks (c :: l) st) in *.
    assert (Hinv1 : invocations (log st1) = invocations (log st))
      by (rewrite Hl1, invocations_app; simpl; apply app_nil_r).
    split.
    + eapply drainsAll_flushImpl; eauto; congruence.
    + destruct (cancelImmediateQueueCallbackNode_frame st1)
        as (Hq' & Hg' & Ha' & _ & evs & Hl & Hi & _).
      unfold flushSyncCallbackQueue, flushSyncCallbackQueue_with.
      apply (drainsAll_flushImpl decouple syncLane fuel (c :: l) st
               (cancelImmediateQueueCallbackNode st1) (length (arrays st)));
        [congruence | congruence | congruence | | exact Hall | exact Hn].
      rewrite Hl, invocations_app, Hi, app_nil_r. exact Hinv1.
Qed.

Lemma sync_queue_drains_in_order_witness :
  drainsAll [cbDone 1; cbTwoSteps 2 3; cbEnqueues 4 5] sampleState
    (flushSyncCallbackQueueImpl true 15 10
       (scheduleSyncCallbacks [cbDone 1; cbTwoSteps 2 3; cbEnqueues 4 5] sampleState)) /\
  drainsAll [cbDone 1; cbTwoSteps 2 3; cbEnqueues 4 5] sampleState
    (flushSyncCallbackQueue true 15 10
       (scheduleSyncCallbacks [cbDone 1; cbTwoSteps 2 3; cbEnqueues 4 5] sampleState)).
Proof.
  apply (sync_queue_drains_in_order true 15
           [cbDone 1; cbTwoSteps 2 3; cbEnqueues 4 5] sampleState 10).
  - reflexivity.
  - reflexivity.
  - repeat constructor.
  - simpl. lia.
Defined.

(** C10, amended.  In a drain, a callback [c'] that a callback of the
    drain hands to [scheduleSyncCallback] is pushed on the array the loop
    is running over, behind every entry enqueued before it.  When none of
    the entries [ahead] of it throws, the same drain runs its chain, after
    theirs, and no request to the host is made up to then; this holds
    whether or not [c'] itself, or an entry behind it, throws.  Here [k]
    is the index [c'] gets in the array, which is not below the length the
    array had when the drain began. *)
Theorem enqueue_during_drain_runs_in_same_pass (decouple : bool) (syncLane : Z)
    (fuel : nat) (st : State) (q : nat) (A : list SchedulerCallback) (k : nat)
    (ahead : list SchedulerCallback) (c' : SchedulerCallback) :
  isFlushingSyncQueue st = false ->
  syncQueue st = Some q ->
  arrays st !! q = Some A ->
  queueSize A < fuel ->
  length A <= k ->
  entriesBefore k A = Some ahead ->
  (A ++ flat_map enqueuedBy ahead) !! k = Some c' ->
  (exists cb, In cb ahead /\ In c' (enqueuedBy cb)) /\
  runsInSamePass ahead c' q st
    (flushSyncCallbackQueueImpl decouple syncLane fuel st).
Proof.
  intros Hg Hq Ha Hn Hk He Hc. split.
  - rewrite lookup_app_r in Hc by exact Hk.
    apply list_elem_of_lookup_2, list_elem_of_In, in_flat_map in Hc.
    exact Hc.
  - exact (flushImpl_reaches decouple syncLane fuel st q A k ahead c'
             Hg Hq Ha Hn He Hc).
Qed.

Lemma enqueue_during_drain_runs_in_same_pass_witness :
  (exists cb,
      In cb [cbDone 1;
             Callback 4 (fun _ => CallScheduleSyncCallback (cbThrows 5 7) ReturnNull);
             cbDone 2] /\
      In (cbThrows 5 7) (enqueuedBy cb)) /\
  runsInSamePass
    [cbDone 1;
     Callback 4 (fun _ => CallScheduleSyncCallback (cbThrows 5 7) ReturnNull);
     cbDone 2]
    (cbThrows 5 7) 0
    (sampleQueued
       [cbDone 1;
        Callback 4 (fun _ => CallScheduleSyncCallback (cbThrows 5 7) ReturnNull);
        cbDone 2])
    (flushSyncCallbackQueueImpl false 15 10
       (sampleQueued
          [cbDone 1;
           Callback 4 (fun _ => CallScheduleSyncCallback (cbThrows 5 7) ReturnNull);
           cbDone 2])).
Proof.
  apply (enqueue_during_drain_runs_in_same_pass false 15 10
           (sampleQueued
              [cbDone 1;
               Callback 4 (fun _ => CallScheduleSyncCallback (cbThrows 5 7) ReturnNull);
               cbDone 2])
           0
           [cbDone 1;
            Callback 4 (fun _ => CallScheduleSyncCallback (cbThrows 5 7) ReturnNull);
            cbDone 2]
           3).
  - reflexivity.
  - reflexivity.
  - reflexivity.
  - simpl. lia.
  - simpl. lia.
  - reflexivity.
  - reflexivity.
Defined.

(** Counterexample to C10 as it was stated: it fails when an entry ahead
    of the new callback throws.  The queue holds a callback that enqueues callback 9 and,
    behind it, a callback that throws: callback 9 is pushed on the array
    of the drain, the drain stops at the throw, callback 9 is not called
    in it; the [catch] block keeps it in a new queue and asks the host for
    a later flush. *)
Lemma enqueue_during_drain_waits_after_throw :
  In (cbEnqueues 1 9) [cbEnqueues 1 9; cbThrows 2 7] /\
  In (cbDone 9) (enqueuedBy (cbEnqueues 1 9)) /\
  (exists st' q' node,
      flushSyncCallbackQueueImpl false 15 10
        (sampleQueued [cbEnqueues 1 9; cbThrows 2 7])
        = Throw (CallbackError 7) st' /\
      arrays st' !! 0 = Some [cbEnqueues 1 9; cbThrows 2 7; cbDone 9] /\
      invocations (log st') = [(1, true); (2, true)] /\
      syncQueue st' = Some q' /\
      arrays st' !! q' = Some [cbDone 9] /\
      registrations (log st')
        = [(Scheduler_ImmediatePriority, Fn_flushSyncCallbackQueueImpl, 0);
           (Scheduler_ImmediatePriority, Fn_flushSyncCallbackQueue, node)]) /\
  ~ (exists ahead,
        runsInSamePass ahead (cbDone 9) 0
          (sampleQueued [cbEnqueues 1 9; cbThrows 2 7])
          (flushSyncCallbackQueueImpl false 15 10
             (sampleQueued [cbEnqueues 1 9; cbThrows 2 7]))).
Proof.
  split; [simpl; auto|]. split; [simpl; auto|]. split.
  - eexists. exists 1, 1. split; [vm_compute; reflexivity|].
    vm_compute. auto 6.
  - intros (ahead & st' & behind & evs & evs' & Hr & _ & Hlog & Hinv & _).
    assert (H9 : In (9, true) (invocations (evs ++ evs'))).
    { rewrite invocations_app, Hinv. apply in_or_app. left.
      apply in_or_app. right. simpl. auto. }
    vm_compute in Hr. destruct Hr as [Hr|[e Hr]]; [discriminate|].
    injection Hr as <- <-.
    apply (f_equal invocations) in Hlog. rewrite invocations_app in Hlog.
    remember (invocations (evs ++ evs')) as calls eqn:Hcalls. clear Hcalls.
    vm_compute in Hlog. rewrite <- Hlog in H9.
    simpl in H9. intuition discriminate.
Qed.

(** C2. The queue holds [n] callbacks and the one at position [k] (the
    entry [c] after the [k] entries [pre]) is the first whose chain throws.
    Then the drain, started by the host or by [flushSyncCallbackQueue],
    re-raises that error to its caller; the queue left is the entries at
    positions [k+1..n-1] (the entries up to [k] are gone and [c] is not
    called again), and one new request at Immediate priority is made to the
    host to flush it. *)
Theorem drain_failure_keeps_rest (decouple : bool) (syncLane : Z) (fuel : nat)
    (st : State) (q : nat) (pre : list SchedulerCallback) (c : SchedulerCallback)
    (post : list SchedulerCallback) (e : Error) :
  isFlushingSyncQueue st = false ->
  syncQueue st = Some q ->
  arrays st !! q = Some (pre ++ c :: post) ->
  Forall (fun p => chainError p = None) pre ->
  chainError c = Some e ->
  queueSize (pre ++ c :: post) < fuel ->
  recoversAfter pre c post e st
    (flushSyncCallbackQueueImpl decouple syncLane fuel st) /\
  recoversAfter pre c post e st
    (flushSyncCallbackQueue decouple syncLane fuel st).
Proof.
  intros Hg Hq Ha Hpre Hc Hn. split.
  - destruct (flushImpl_throws decouple syncLane fuel st q pre c post e
                Hg Hq Ha Hpre Hc Hn)
      as (st' & q' & evs & node & H).
    exists st', q', evs, node. exact H.
  - destruct (cancelImmediateQueueCallbackNode_frame st)
      as (Hq' & Hg' & Ha' & _ & evs0 & Hl & Hi & Hr).
    unfold flushSyncCallbackQueue, flushSyncCallbackQueue_with.
    destruct (flushImpl_throws decouple syncLane fuel
                (cancelImmediateQueueCallbackNode st) q pre c post e)
      as (st' & q' & evs & node & Hrun & Hq2 & Ha2 & Hg2 & Hlog & Hinv & Hreg);
      try congruence.
    exists st', q', (evs0 ++ evs), node.
    split; [exact Hrun|]. split; [exact Hq2|]. split; [exact Ha2|].
    split; [exact Hg2|].
    split; [rewrite Hlog, Hl, <- !app_assoc; reflexivity|].
    rewrite invocations_app, registrations_app, Hi, Hr, Hinv, Hreg. auto.
Qed.

Lemma drain_failure_keeps_rest_witness :
  recoversAfter [cbDone 1] (cbThrows 2 7) [cbTwoSteps 3 4; cbDone 5] (CallbackError 7)
    (sampleQueued [cbDone 1; cbThrows 2 7; cbTwoSteps 3 4; cbDone 5])
    (flushSyncCallbackQueueImpl true 15 10
       (sampleQueued [cbDone 1; cbThrows 2 7; cbTwoSteps 3 4; cbDone 5])) /\
  recoversAfter [cbDone 1] (cbThrows 2 7) [cbTwoSteps 3 4; cbDone 5] (CallbackError 7)
    (sampleQueued [cbDone 1; cbThrows 2 7; cbTwoSteps 3 4; cbDone 5])
    (flushSyncCallbackQueue true 15 10
       (sampleQueued [cbDone 1; cbThrows 2 7; cbTwoSteps 3 4; cbDone 5])).
Proof.
  apply (drain_failure_keeps_rest true 15 10
           (sampleQueued [cbDone 1; cbThrows 2 7; cbTwoSteps 3 4; cbDone 5]) 0
           [cbDone 1] (cbThrows 2 7) [cbTwoSteps 3 4; cbDone 5] (CallbackError 7)).
  - reflexivity.
  - reflexivity.
  - reflexivity.
  - repeat constructor.
  - reflexivity.
  - simpl. lia.
Defined.

(** C5. With [decoupleUpdatePriorityFromScheduler] set, a drain with
    enough fuel ends, by success or by the exception of a callback, and in
    both cases the current update lane priority is again what it was when
    the drain began and the guard is clear.  The first callback is called
    under [SyncLanePriority] (and the host's Immediate priority), whatever
    the lane priority was before; and every callback of the drain is called
    under [SyncLanePriority] when no callback sets the lane priority
    itself. *)
Theorem drain_restores_lane_priority (syncLane : Z) (fuel : nat) (st : State)
    (q : nat) (A : list SchedulerCallback) :
  isFlushingSyncQueue st = false ->
  syncQueue st = Some q ->
  arrays st !! q = Some A ->
  queueSize A < fuel ->
  exists st',
    (flushSyncCallbackQueueImpl true syncLane fuel st = Ok tt st' \/
     exists e, flushSyncCallbackQueueImpl true syncLane fuel st = Throw e st') /\
    currentUpdateLanePriority st' = currentUpdateLanePriority st /\
    isFlushingSyncQueue st' = false /\
    (forall c, A !! 0 = Some c ->
       exists evs,
         log st' = log st ++
           EvInvoke (callbackName c) true syncLane Scheduler_ImmediatePriority
             :: evs) /\
    (Forall (fun c => keepsLane c = true) A ->
       exists evs,
         log st' = log st ++ evs /\ Forall (calledUnder syncLane) evs).
Proof.
  intros Hg Hq Ha Hn. destruct fuel as [|f]; [lia|].
  rewrite (flushImpl_enter true syncLane _ _ _ Hg Hq).
  destruct (forLoop_total (reentrantFlushOf true syncLane (S f)) q
              (reentrantFlushOf_guarded true syncLane f) (S f) 0
              (drainEntry true syncLane st) A)
    as (j & st' & F & Hd' & Hrun & (evs & Hlog & Hfirst) & Hlane).
  - apply draining_drainEntry; assumption.
  - simpl. exact Hn.
  - rewrite log_drainEntry in Hlog. destruct Hrun as [Hrun|[e Hrun]]; rewrite Hrun.
    + eexists. split; [left; reflexivity|]. simpl.
      split; [reflexivity|]. split; [reflexivity|]. split.
      * intros c Hc. destruct (Hfirst c Hc) as (evs' & ->).
        exists evs'. exact Hlog.
      * intros Hk. destruct (Hlane Hk) as [_ (evs2 & Hlog2 & Hu)].
        exists evs2. rewrite log_drainEntry in Hlog2. split; assumption.
    + destruct Hd' as [_ Hq' Ha'].
      destruct (catchBlock_spec j e
                  (set_hostPriorityLevel (hostPriorityLevel (host st)) st') q F
                  Hq' Ha')
        as (st2 & Hcatch & _ & _ & Hl2 & _ & _).
      rewrite Hcatch. eexists. split; [right; exists e; reflexivity|]. simpl.
      split; [reflexivity|]. split; [reflexivity|]. split.
      * intros c Hc. destruct (Hfirst c Hc) as (evs' & ->).
        eexists. rewrite Hl2. simpl. rewrite Hlog, <- app_assoc. reflexivity.
      * intros Hk. destruct (Hlane Hk) as [_ (evs2 & Hlog2 & Hu)].
        rewrite log_drainEntry in Hlog2.
        eexists. split.
        -- rewrite Hl2. simpl. rewrite Hlog2, <- app_assoc. reflexivity.
        -- apply Forall_app. split; [exact Hu|]. constructor; [exact I|constructor].
Qed.

Lemma drain_restores_lane_priority_witness :
  exists st',
    (flushSyncCallbackQueueImpl true 15 10 (sampleQueued [cbThrows 2 7; cbDone 1])
       = Ok tt st' \/
     exists e,
       flushSyncCallbackQueueImpl true 15 10 (sampleQueued [cbThrows 2 7; cbDone 1])
         = Throw e st') /\
    currentUpdateLanePriority st'
      = currentUpdateLanePriority (sampleQueued [cbThrows 2 7; cbDone 1]) /\
    isFlushingSyncQueue st' = false /\
    (forall c, [cbThrows 2 7; cbDone 1] !! 0 = Some c ->
       exists evs,
         log st' = log (sampleQueued [cbThrows 2 7; cbDone 1]) ++
           EvInvoke (callbackName c) true 15 Scheduler_ImmediatePriority :: evs) /\
    (Forall (fun c => keepsLane c = true) [cbThrows 2 7; cbDone 1] ->
       exists evs,
         log st' = log (sampleQueued [cbThrows 2 7; cbDone 1]) ++ evs /\
         Forall (calledUnder 15) evs).
Proof.
  apply (drain_restores_lane_priority 15 10
           (sampleQueued [cbThrows 2 7; cbDone 1]) 0 [cbThrows 2 7; cbDone 1]).
  - reflexivity.
  - reflexivity.
  - reflexivity.
  - simpl. lia.
Defined.

(** ** The scenarios of the specification, run *)

(** A, B and C are enqueued and the pending flush fires: they run in that
    order and the queue is null afterwards. *)
Example scenario_three_callbacks :
  match flushSyncCallbackQueueImpl false 15 10
          (sampleQueued [cbDone 1; cbDone 2; cbDone 3]) with
  | Ok _ st' =>
      invocations (log st') = [(1, true); (2, true); (3, true)] /\
      syncQueue st' = None
  | _ => False
  end.
Proof. vm_compute. auto. Qed.

(** A throws, B and C follow: the flush throws A's error; a second flush
    runs B, then C, and leaves the queue null. *)
Example scenario_first_callback_throws :
  match flushSyncCallbackQueue false 15 10
          (sampleQueued [cbThrows 1 7; cbDone 2; cbDone 3]) with
  | Throw e st' =>
      e = CallbackError 7 /\
      invocations (log st') = [(1, true)] /\
      match flushSyncCallbackQueue false 15 10 st' with
      | Ok _ st'' =>
          invocations (log st'') = [(1, true); (2, true); (3, true)] /\
          syncQueue st'' = None
      | _ => False
      end
  | _ => False
  end.
Proof. vm_compute. auto. Qed.

(** A continuation is called before the next entry, and a callback
    enqueued during the drain runs last in the same drain. *)
Example scenario_continuation_and_enqueue :
  match flushSyncCallbackQueue true 15 10
          (sampleQueued [cbEnqueues 1 9; cbTwoSteps 2 3; cbDone 4]) with
  | Ok _ st' =>
      invocations (log st') = [(1, true); (2, true); (3, true); (4, true); (9, true)] /\
      registrations (log st')
        = [(Scheduler_ImmediatePriority, Fn_flushSyncCallbackQueueImpl, 0)] /\
      syncQueue st' = None
  | _ => False
  end.
Proof. vm_compute. auto. Qed.

(** * Further properties of the module *)

(** ** Priorities *)

Lemma reactPriorityToSchedulerPriority_unknown (level : Z) (st : State) :
  ~ In level reactPriorityLevels ->
  reactPriorityToSchedulerPriority level st = Throw unknownPriorityLevel st.
Proof.
  intros H. unfold reactPriorityToSchedulerPriority.
  repeat match goal with
         | |- context [Z.eqb level ?k] =>
             destruct (Z.eqb_spec level k) as [Heq|_];
               [exfalso; apply H; rewrite Heq; simpl; tauto|]
         end.
  reflexivity.
Qed.

Lemma reactPriorityToSchedulerPriority_known (level : Z) (st : State) :
  In level reactPriorityLevels ->
  exists p,
    In p schedulerPriorityLevels /\
    reactPriorityToSchedulerPriority level st = Ok p st /\
    schedulerPriorityToReactPriority p (set_hostPriorityLevel p st)
      = Ok level (set_hostPriorityLevel p st) /\
    (p = 100 - level)%Z.
Proof.
  intros H. simpl in H.
  destruct H as [<-|[<-|[<-|[<-|[<-|[]]]]]]; eexists;
    (split; [|split; [reflexivity|split; reflexivity]]); simpl; tauto.
Qed.

(** The React levels are ascending numbers (lines 62-73): a more urgent
    level is a larger number, [NoPriority] is below all of them, and the
    translation to the Scheduler's numbering turns the order round. *)
Theorem priority_order_reversed (st : State) (x y : Z) :
  In x reactPriorityLevels ->
  In y reactPriorityLevels ->
  (x < y)%Z ->
  (NoPriority < x)%Z /\
  exists px py,
    reactPriorityToSchedulerPriority x st = Ok px st /\
    reactPriorityToSchedulerPriority y st = Ok py st /\
    (py < px)%Z.
Proof.
  intros Hx Hy Hlt.
  destruct (reactPriorityToSchedulerPriority_known x st Hx) as (px & _ & Hpx & _ & Hvx).
  destruct (reactPriorityToSchedulerPriority_known y st Hy) as (py & _ & Hpy & _ & Hvy).
  split.
  - simpl in Hx. unfold NoPriority.
    destruct Hx as [<-|[<-|[<-|[<-|[<-|[]]]]]]; reflexivity.
  - exists px, py. split; [exact Hpx|]. split; [exact Hpy|]. lia.
Qed.

Lemma priority_order_reversed_witness :
  (NoPriority < IdlePriority)%Z /\
  exists px py,
    reactPriorityToSchedulerPriority IdlePriority sampleState = Ok px sampleState /\
    reactPriorityToSchedulerPriority UserBlockingPriority sampleState
      = Ok py sampleState /\
    (py < px)%Z.
Proof.
  apply (priority_order_reversed sampleState IdlePriority UserBlockingPriority).
  - simpl. tauto.
  - simpl. tauto.
  - reflexivity.
Defined.

(** The React levels start at 90 so that they do not clash with the
    Scheduler's (lines 62-66): no React level, nor [NoPriority], is a
    Scheduler priority.  A value of the wrong kind is therefore caught: a
    Scheduler priority handed to [reactPriorityToSchedulerPriority] throws,
    and so does [getCurrentPriorityLevel] when the ambient priority is a
    React level. *)
Theorem priority_bands_disjoint (st : State) (level p : Z) :
  In level (NoPriority :: reactPriorityLevels) ->
  In p schedulerPriorityLevels ->
  level <> p /\
  reactPriorityToSchedulerPriority p st = Throw unknownPriorityLevel st /\
  getCurrentPriorityLevel (set_hostPriorityLevel level st)
    = Throw unknownPriorityLevel (set_hostPriorityLevel level st).
Proof.
  intros Hl Hp. simpl in Hl, Hp.
  destruct Hp as [<-|[<-|[<-|[<-|[<-|[]]]]]];
    destruct Hl as [<-|[<-|[<-|[<-|[<-|[<-|[]]]]]]];
    (split; [discriminate|split; reflexivity]).
Qed.

Lemma priority_bands_disjoint_witness :
  NormalPriority <> Scheduler_NormalPriority /\
  reactPriorityToSchedulerPriority Scheduler_NormalPriority sampleState
    = Throw unknownPriorityLevel sampleState /\
  getCurrentPriorityLevel (set_hostPriorityLevel NormalPriority sampleState)
    = Throw unknownPriorityLevel (set_hostPriorityLevel NormalPriority sampleState).
Proof.
  apply (priority_bands_disjoint sampleState NormalPriority Scheduler_NormalPriority).
  - simpl. tauto.
  - simpl. tauto.
Defined.

(** ** runWithPriority and scheduleCallback *)

(** A level that is not one of the five never reaches the host:
    [runWithPriority] throws without calling [fn], and [scheduleCallback]
    throws without scheduling anything; the state is as before. *)
Theorem unknown_level_never_reaches_host {F A : Type} (level : Z)
    (fn : F -> State -> F * Result A) (frame : F) (callback : SchedulerCallback)
    (options : option Z) (st : State) :
  ~ In level reactPriorityLevels ->
  runWithPriority level fn frame st = (frame, Throw unknownPriorityLevel st) /\
  scheduleCallback level callback options st = Throw unknownPriorityLevel st.
Proof.
  intros H. unfold runWithPriority, scheduleCallback.
  rewrite (reactPriorityToSchedulerPriority_unknown level st H). split; reflexivity.
Qed.

Lemma unknown_level_never_reaches_host_witness :
  runWithPriority NoPriority
    (fun (f : nat) (s : State) => (S f, Ok tt (setCurrentUpdateLanePriority 1 s)))
    0 sampleState
    = (0, Throw unknownPriorityLevel sampleState) /\
  scheduleCallback NoPriority (cbDone 1) None sampleState
    = Throw unknownPriorityLevel sampleState.
Proof.
  apply (unknown_level_never_reaches_host NoPriority
           (fun (f : nat) (s : State) => (S f, Ok tt (setCurrentUpdateLanePriority 1 s)))
           0 (cbDone 1) None sampleState).
  cbv. intuition discriminate.
Defined.

(** [runWithPriority] with one of the five levels calls [fn] once, in a
    state that differs from the caller's only in the host's ambient
    priority and in which [getCurrentPriorityLevel] returns that level; the
    value or exception of [fn] is passed on, and the ambient priority is
    again the caller's afterwards, in both cases. *)
Theorem runWithPriority_runs_at_level {F A : Type} (level : Z)
    (fn : F -> State -> F * Result A) (frame : F) (st : State) :
  In level reactPriorityLevels ->
  exists p,
    getCurrentPriorityLevel (set_hostPriorityLevel p st)
      = Ok level (set_hostPriorityLevel p st) /\
    match fn frame (set_hostPriorityLevel p st) with
    | (frame', Ok a st') =>
        runWithPriority level fn frame st
          = (frame', Ok a (set_hostPriorityLevel (hostPriorityLevel (host st)) st'))
    | (frame', Throw e st') =>
        runWithPriority level fn frame st
          = (frame', Throw e (set_hostPriorityLevel (hostPriorityLevel (host st)) st'))
    | (frame', OutOfFuel) => runWithPriority level fn frame st = (frame', OutOfFuel)
    end.
Proof.
  intros H.
  destruct (reactPriorityToSchedulerPriority_known level st H)
    as (p & _ & Hp & Hback & _).
  exists p. split; [exact Hback|].
  unfold runWithPriority. rewrite Hp. unfold Scheduler_runWithPriority.
  destruct (fn frame (set_hostPriorityLevel p st)) as [frame' [a st'|e st'|]];
    reflexivity.
Qed.

Lemma runWithPriority_runs_at_level_witness :
  exists p,
    getCurrentPriorityLevel (set_hostPriorityLevel p sampleState)
      = Ok UserBlockingPriority (set_hostPriorityLevel p sampleState) /\
    match (fun (f : nat) (s : State) => (S f, getCurrentPriorityLevel s))
            0 (set_hostPriorityLevel p sampleState) with
    | (frame', Ok a st') =>
        runWithPriority UserBlockingPriority
          (fun (f : nat) (s : State) => (S f, getCurrentPriorityLevel s)) 0 sampleState
          = (frame', Ok a (set_hostPriorityLevel
                             (hostPriorityLevel (host sampleState)) st'))
    | (frame', Throw e st') =>
        runWithPriority UserBlockingPriority
          (fun (f : nat) (s : State) => (S f, getCurrentPriorityLevel s)) 0 sampleState
          = (frame', Throw e (set_hostPriorityLevel
                                (hostPriorityLevel (host sampleState)) st'))
    | (frame', OutOfFuel) =>
        runWithPriority UserBlockingPriority
          (fun (f : nat) (s : State) => (S f, getCurrentPriorityLevel s)) 0 sampleState
          = (frame', OutOfFuel)
    end.
Proof.
  apply (runWithPriority_runs_at_level UserBlockingPriority
           (fun (f : nat) (s : State) => (S f, getCurrentPriorityLevel s))
           0 sampleState).
  simpl. tauto.
Defined.

(** The scenario of the specification: [runWithPriority] at UserBlocking
    while the ambient priority is Normal; inside, the current level is
    UserBlocking, afterwards the ambient priority is Normal again. *)
Example scenario_runWithPriority :
  runWithPriority UserBlockingPriority
    (fun (f : unit) (s : State) => (f, getCurrentPriorityLevel s)) tt sampleState
    = (tt, Ok UserBlockingPriority sampleState) /\
  getCurrentPriorityLevel sampleState = Ok NormalPriority sampleState.
Proof. split; reflexivity. Qed.

(** [scheduleCallback] with one of the five levels makes exactly one
    request to the host, at the translated priority and with the callback
    and the options as given, and returns the host's task; the synchronous
    queue is not touched.  [cancelCallback] on the returned task forwards
    the cancellation of that task to the host. *)
Theorem scheduleCallback_then_cancel (level : Z) (callback : SchedulerCallback)
    (options : option Z) (st : State) :
  In level reactPriorityLevels ->
  exists p st',
    reactPriorityToSchedulerPriority level st = Ok p st /\
    scheduleCallback level callback options st
      = Ok (SchedulerNode (hostNextNode (host st))) st' /\
    log st' = log st ++
      [EvSchedule p (Fn_callback callback) options (hostNextNode (host st))] /\
    hostNextNode (host st') = S (hostNextNode (host st)) /\
    syncQueue st' = syncQueue st /\
    arrays st' = arrays st /\
    immediateQueueCallbackNode st' = immediateQueueCallbackNode st /\
    isFlushingSyncQueue st' = isFlushingSyncQueue st /\
    log (cancelCallback (SchedulerNode (hostNextNode (host st))) st')
      = log st' ++ [EvCancel (hostNextNode (host st))].
Proof.
  intros H.
  destruct (reactPriorityToSchedulerPriority_known level st H) as (p & _ & Hp & _).
  exists p. eexists. split; [exact Hp|].
  unfold scheduleCallback. rewrite Hp. simpl.
  split; [reflexivity|]. simpl. repeat split.
Qed.

Lemma scheduleCallback_then_cancel_witness :
  exists p st',
    reactPriorityToSchedulerPriority LowPriority sampleState = Ok p sampleState /\
    scheduleCallback LowPriority (cbDone 1) (Some 250%Z) sampleState
      = Ok (SchedulerNode (hostNextNode (host sampleState))) st' /\
    log st' = log sampleState ++
      [EvSchedule p (Fn_callback (cbDone 1)) (Some 250%Z)
         (hostNextNode (host sampleState))] /\
    hostNextNode (host st') = S (hostNextNode (host sampleState)) /\
    syncQueue st' = syncQueue sampleState /\
    arrays st' = arrays sampleState /\
    immediateQueueCallbackNode st' = immediateQueueCallbackNode sampleState /\
    isFlushingSyncQueue st' = isFlushingSyncQueue sampleState /\
    log (cancelCallback (SchedulerNode (hostNextNode (host sampleState))) st')
      = log st' ++ [EvCancel (hostNextNode (host sampleState))].
Proof.
  apply (scheduleCallback_then_cancel LowPriority (cbDone 1) (Some 250%Z) sampleState).
  simpl. tauto.
Defined.

(** ** What a drain leaves alone *)

Section DrainFrame.

Variable reentrantFlush : State -> Result unit.
Variable q : nat.

Hypothesis reentrantFlush_guarded : forall st,
  isFlushingSyncQueue st = true ->
  reentrantFlush st = Ok tt (cancelImmediateQueueCallbackNode st).

(** A relation between states that holds across each thing a callback can
    do in a drain. *)
Variable R : State -> State -> Prop.

Hypothesis R_refl : forall st, R st st.
Hypothesis R_trans : forall st1 st2 st3, R st1 st2 -> R st2 st3 -> R st1 st3.
Hypothesis R_invoke : forall name isSync st,
  R st (logEvent (EvInvoke name isSync (currentUpdateLanePriority st)
                    (hostPriorityLevel (host st))) st).
Hypothesis R_push : forall q' c st,
  syncQueue st = Some q' -> R st (pushArray q' c st).
Hypothesis R_cancel : forall st, R st (cancelImmediateQueueCallbackNode st).
Hypothesis R_setLane : forall lane st, R st (setCurrentUpdateLanePriority lane st).

Lemma doWhile_frame_mut :
  (forall c n st A,
      chainSize c <= n -> draining q A st ->
      exists st',
        doWhile reentrantFlush n c st = endResult (chainError c) st' /\
        draining q (A ++ enqueuedBy c) st' /\ R st st') /\
  (forall b n st A,
      behaviourSize b <= n -> draining q A st ->
      exists st',
        continueWith reentrantFlush n (runBehaviour reentrantFlush b st)
          = endResult (behaviourError b) st' /\
        draining q (A ++ behaviourEnqueued b) st' /\ R st st').
Proof.
  apply callback_behaviour_mutind.
  - intros name body IH n st A Hn Hd. simpl in Hn.
    destruct n as [|n]; [lia|].
    pose proof (drainStep_logEvent_invoke q A name true
                  (currentUpdateLanePriority st) (hostPriorityLevel (host st))
                  st Hd) as Hlog.
    pose proof (drainStep_draining _ _ _ _ _ _ Hd Hlog) as Hd1.
    rewrite app_nil_r in Hd1.
    destruct (IH true n _ _ ltac:(lia) Hd1) as (st' & Heq & Hd' & HR).
    exists st'. split; [exact Heq|]. split; [exact Hd'|].
    eapply R_trans; [apply R_invoke|exact HR].
  - intros n st A _ Hd. exists st. rewrite app_nil_r. auto.
  - intros k IH n st A Hn Hd. exact (IH n st A Hn Hd).
  - intros e n st A _ Hd. exists st. rewrite app_nil_r. auto.
  - intros c _ rest IH n st A Hn Hd. simpl in Hn.
    pose proof (drainStep_scheduleSyncCallback q A c st Hd) as H1.
    pose proof (drainStep_draining _ _ _ _ _ _ Hd H1) as Hd1.
    destruct (IH n _ _ ltac:(lia) Hd1) as (st' & Heq & Hd' & HR).
    exists st'. split; [exact Heq|]. split.
    + simpl. rewrite <- app_assoc in Hd'. exact Hd'.
    + eapply R_trans; [|exact HR].
      unfold scheduleSyncCallback. rewrite (dr_queue _ _ _ Hd). simpl.
      apply R_push. exact (dr_queue _ _ _ Hd).
  - intros rest IH n st A Hn Hd. simpl in Hn. simpl.
    rewrite (reentrantFlush_guarded st (dr_guard _ _ _ Hd)).
    pose proof (drainStep_cancelImmediateQueueCallbackNode q A st Hd) as H1.
    pose proof (drainStep_draining _ _ _ _ _ _ Hd H1) as Hd1.
    rewrite app_nil_r in Hd1.
    destruct (IH n _ _ Hn Hd1) as (st' & Heq & Hd' & HR).
    exists st'. split; [exact Heq|]. split; [exact Hd'|].
    eapply R_trans; [apply R_cancel|exact HR].
  - intros lane rest IH n st A Hn Hd. simpl in Hn.
    pose proof (drainStep_setCurrentUpdateLanePriority q A lane st Hd) as H1.
    pose proof (drainStep_draining _ _ _ _ _ _ Hd H1) as Hd1.
    rewrite app_nil_r in Hd1.
    destruct (IH n _ _ Hn Hd1) as (st' & Heq & Hd' & HR).
    exists st'. split; [exact Heq|]. split; [exact Hd'|].
    eapply R_trans; [apply R_setLane|exact HR].
Qed.

(** With enough fuel the loop ends, and [R] holds from its first state to
    its last. *)
Lemma forLoop_frame n : forall i st A,
  draining q A st ->
  queueSize (drop i A) < n ->
  exists j st' F,
    draining q F st' /\ R st st' /\
    (forLoop reentrantFlush n q i st = (j, Ok tt st') \/
     exists e, forLoop reentrantFlush n q i st = (j, Throw e st')).
Proof.
  induction n as [|n IH]; intros i st A Hd Hn; [lia|].
  destruct (A !! i) as [c|] eqn:Hc.
  - rewrite (drop_S _ _ _ Hc) in Hn. simpl in Hn.
    rewrite (forLoop_iteration reentrantFlush q n i st c)
      by (rewrite (readArray_draining q A st Hd); exact Hc).
    destruct (proj1 doWhile_frame_mut c n st A ltac:(lia) Hd)
      as (st1 & Heq & Hd1 & HR1).
    rewrite Heq.
    pose proof (lookup_lt_Some _ _ _ Hc) as Hlt.
    pose proof (queueSize_enqueuedBy c) as Hsz.
    destruct (chainError c) as [e|]; simpl.
    + exists i, st1, (A ++ enqueuedBy c). split; [exact Hd1|].
      split; [exact HR1|]. right. exists e. reflexivity.
    + destruct (IH (S i) st1 (A ++ enqueuedBy c) Hd1)
        as (j & st' & F & Hd' & HR & Hrun).
      { rewrite drop_app_le by lia. rewrite queueSize_app. lia. }
      exists j, st', F. split; [exact Hd'|]. split; [|exact Hrun].
      eapply R_trans; eauto.
  - rewrite (forLoop_exit reentrantFlush q)
      by (rewrite (readArray_draining q A st Hd); exact Hc).
    exists i, st, A. split; [exact Hd|]. split; [apply R_refl|]. left. reflexivity.
Qed.

End DrainFrame.

Lemma catchBlock_afterCatch i e st q :
  syncQueue st = Some q -> catchBlock i e st = Throw e (afterCatch i q st).
Proof.
  intros Hq. unfold catchBlock, afterCatch, sliceArray, newArray. rewrite Hq.
  reflexivity.
Qed.

Section FlushFrame.

Variable decoupleUpdatePriorityFromScheduler : bool.
Variable SyncLanePriority : Z.
Variable R : State -> State -> Prop.

Hypothesis R_refl : forall st, R st st.
Hypothesis R_trans : forall st1 st2 st3, R st1 st2 -> R st2 st3 -> R st1 st3.
Hypothesis R_invoke : forall name isSync st,
  R st (logEvent (EvInvoke name isSync (currentUpdateLanePriority st)
                    (hostPriorityLevel (host st))) st).
Hypothesis R_push : forall q' c st,
  syncQueue st = Some q' -> R st (pushArray q' c st).
Hypothesis R_cancel : forall st, R st (cancelImmediateQueueCallbackNode st).
Hypothesis R_setLane : forall lane st, R st (setCurrentUpdateLanePriority lane st).

(** A drain with enough fuel ends in one of two states, given by the
    state [stL] its loop ended in; [R] holds across the loop. *)
Lemma flushImpl_outcome fuel st q A :
  isFlushingSyncQueue st = false -> syncQueue st = Some q ->
  arrays st !! q = Some A ->
  queueSize A < fuel ->
  exists j stL F,
    draining q F stL /\
    R (drainEntry decoupleUpdatePriorityFromScheduler SyncLanePriority st) stL /\
    (flushSyncCallbackQueueImpl decoupleUpdatePriorityFromScheduler
       SyncLanePriority fuel st
       = Ok tt (drainOkState decoupleUpdatePriorityFromScheduler st stL) \/
     exists e,
       flushSyncCallbackQueueImpl decoupleUpdatePriorityFromScheduler
         SyncLanePriority fuel st
         = Throw e (drainThrowState decoupleUpdatePriorityFromScheduler st q j stL)).
Proof.
  intros Hg Hq Ha Hn. destruct fuel as [|f]; [lia|].
  rewrite (flushImpl_enter _ _ _ _ _ Hg Hq).
  destruct (forLoop_frame
              (reentrantFlushOf decoupleUpdatePriorityFromScheduler
                 SyncLanePriority (S f)) q
              (reentrantFlushOf_guarded _ _ f) R R_refl R_trans R_invoke R_push
              R_cancel R_setLane (S f) 0
              (drainEntry decoupleUpdatePriorityFromScheduler SyncLanePriority st) A)
    as (j & stL & F & Hd & HR & Hrun).
  - apply draining_drainEntry; assumption.
  - simpl. exact Hn.
  - exists j, stL, F. split; [exact Hd|]. split; [exact HR|].
    destruct Hrun as [Hrun|[e Hrun]]; rewrite Hrun.
    + left. reflexivity.
    + right. exists e.
      rewrite (catchBlock_afterCatch j e _ q) by (simpl; exact (dr_queue _ _ _ Hd)).
      reflexivity.
Qed.

End FlushFrame.

Lemma hostPriorityStep_refl st : hostPriorityStep st st.
Proof.
  split; [reflexivity|]. exists []. rewrite app_nil_r.
  split; [reflexivity|constructor].
Qed.

Lemma hostPriorityStep_trans st1 st2 st3 :
  hostPriorityStep st1 st2 -> hostPriorityStep st2 st3 -> hostPriorityStep st1 st3.
Proof.
  intros [Hp1 (ev1 & Hl1 & Hu1)] [Hp2 (ev2 & Hl2 & Hu2)].
  split; [congruence|]. exists (ev1 ++ ev2).
  split; [rewrite Hl2, Hl1, <- app_assoc; reflexivity|].
  apply Forall_app. split; [exact Hu1|]. rewrite <- Hp1. exact Hu2.
Qed.

Lemma hostPriorityStep_invoke name isSync st :
  hostPriorityStep st
    (logEvent (EvInvoke name isSync (currentUpdateLanePriority st)
                 (hostPriorityLevel (host st))) st).
Proof.
  split; [reflexivity|]. eexists. split; [reflexivity|].
  constructor; [reflexivity|constructor].
Qed.

Lemma hostPriorityStep_push q c st :
  syncQueue st = Some q -> hostPriorityStep st (pushArray q c st).
Proof.
  intros _. split; [reflexivity|]. exists []. simpl. rewrite app_nil_r.
  split; [reflexivity|constructor].
Qed.

Lemma hostPriorityStep_cancel st :
  hostPriorityStep st (cancelImmediateQueueCallbackNode st).
Proof.
  unfold cancelImmediateQueueCallbackNode.
  destruct (immediateQueueCallbackNode st); [|apply hostPriorityStep_refl].
  split; [reflexivity|]. eexists. split; [reflexivity|].
  constructor; [exact I|constructor].
Qed.

Lemma hostPriorityStep_setLane lane st :
  hostPriorityStep st (setCurrentUpdateLanePriority lane st).
Proof.
  split; [reflexivity|]. exists []. simpl. rewrite app_nil_r.
  split; [reflexivity|constructor].
Qed.

Lemma callOrCancelOf_weaken stored stored' evs :
  stored' = stored \/ stored' = None ->
  Forall (callOrCancelOf stored') evs -> Forall (callOrCancelOf stored) evs.
Proof.
  intros Hs H. eapply Forall_impl; [exact H|].
  intros [| |node]; simpl; auto.
  destruct Hs as [->| ->]; [auto|discriminate].
Qed.

Lemma nodeStep_refl st : nodeStep st st.
Proof.
  split; [reflexivity|]. split; [left; reflexivity|].
  exists []. rewrite app_nil_r. split; [reflexivity|constructor].
Qed.

Lemma nodeStep_trans st1 st2 st3 :
  nodeStep st1 st2 -> nodeStep st2 st3 -> nodeStep st1 st3.
Proof.
  intros (Hn1 & Hs1 & ev1 & Hl1 & Hu1) (Hn2 & Hs2 & ev2 & Hl2 & Hu2).
  split; [congruence|]. split.
  - destruct Hs2 as [Hs2|Hs2]; [rewrite Hs2; exact Hs1|right; exact Hs2].
  - exists (ev1 ++ ev2).
    split; [rewrite Hl2, Hl1, <- app_assoc; reflexivity|].
    apply Forall_app. split; [exact Hu1|].
    eapply callOrCancelOf_weaken; eauto.
Qed.

Lemma nodeStep_invoke name isSync st :
  nodeStep st
    (logEvent (EvInvoke name isSync (currentUpdateLanePriority st)
                 (hostPriorityLevel (host st))) st).
Proof.
  split; [reflexivity|]. split; [left; reflexivity|].
  eexists. split; [reflexivity|]. constructor; [exact I|constructor].
Qed.

Lemma nodeStep_push q c st :
  syncQueue st = Some q -> nodeStep st (pushArray q c st).
Proof.
  intros _. split; [reflexivity|]. split; [left; reflexivity|].
  exists []. simpl. rewrite app_nil_r. split; [reflexivity|constructor].
Qed.

Lemma nodeStep_cancel st : nodeStep st (cancelImmediateQueueCallbackNode st).
Proof.
  unfold cancelImmediateQueueCallbackNode.
  destruct (immediateQueueCallbackNode st) as [node|] eqn:Hs;
    [|apply nodeStep_refl].
  split; [reflexivity|]. split; [right; reflexivity|].
  eexists. split; [reflexivity|]. rewrite Hs.
  constructor; [reflexivity|constructor].
Qed.

Lemma nodeStep_setLane lane st :
  nodeStep st (setCurrentUpdateLanePriority lane st).
Proof.
  split; [reflexivity|]. split; [left; reflexivity|].
  exists []. simpl. rewrite app_nil_r. split; [reflexivity|constructor].
Qed.

(** ** More about a drain *)

(** Whatever the flag, a drain with enough fuel ends, by success or by the
    exception of a callback; every callback it calls is called under the
    Scheduler's Immediate priority, and the host's ambient priority is
    afterwards what it was before, in both cases. *)
Theorem drain_runs_at_immediate_priority (decouple : bool) (syncLane : Z)
    (fuel : nat) (st : State) (q : nat) (A : list SchedulerCallback) :
  isFlushingSyncQueue st = false ->
  syncQueue st = Some q ->
  arrays st !! q = Some A ->
  queueSize A < fuel ->
  exists st' evs,
    (flushSyncCallbackQueueImpl decouple syncLane fuel st = Ok tt st' \/
     exists e, flushSyncCallbackQueueImpl decouple syncLane fuel st = Throw e st') /\
    hostPriorityLevel (host st') = hostPriorityLevel (host st) /\
    log st' = log st ++ evs /\
    Forall (calledAt Scheduler_ImmediatePriority) evs.
Proof.
  intros Hg Hq Ha Hn.
  destruct (flushImpl_outcome decouple syncLane hostPriorityStep
              hostPriorityStep_refl hostPriorityStep_trans hostPriorityStep_invoke
              hostPriorityStep_push hostPriorityStep_cancel hostPriorityStep_setLane
              fuel st q A Hg Hq Ha Hn)
    as (j & stL & F & Hd & [_ (evs & Hlog & Hu)] & Hrun).
  rewrite log_drainEntry in Hlog.
  assert (Hp : hostPriorityLevel (host (drainEntry decouple syncLane st))
               = Scheduler_ImmediatePriority)
    by (unfold drainEntry; destruct decouple; reflexivity).
  rewrite Hp in Hu.
  destruct Hrun as [Hrun|[e Hrun]].
  - exists (drainOkState decouple st stL), evs.
    split; [left; exact Hrun|].
    unfold drainOkState, drainCleanup. destruct decouple; simpl; auto.
  - exists (drainThrowState decouple st q j stL),
      (evs ++ [EvSchedule Scheduler_ImmediatePriority Fn_flushSyncCallbackQueue
                 None (hostNextNode (host stL))]).
    split; [right; exists e; exact Hrun|].
    assert (Hall : Forall (calledAt Scheduler_ImmediatePriority)
                     (evs ++ [EvSchedule Scheduler_ImmediatePriority
                                Fn_flushSyncCallbackQueue None
                                (hostNextNode (host stL))]))
      by (apply Forall_app; split; [exact Hu|constructor; [exact I|constructor]]).
    unfold drainThrowState, drainCleanup, afterCatch.
    destruct decouple; simpl; rewrite Hlog, <- app_assoc; auto.
Qed.

Lemma drain_runs_at_immediate_priority_witness :
  exists st' evs,
    (flushSyncCallbackQueueImpl false 15 10
       (sampleQueued [cbEnqueues 1 9; cbThrows 2 7; cbDone 3]) = Ok tt st' \/
     exists e,
       flushSyncCallbackQueueImpl false 15 10
         (sampleQueued [cbEnqueues 1 9; cbThrows 2 7; cbDone 3]) = Throw e st') /\
    hostPriorityLevel (host st')
      = hostPriorityLevel (host (sampleQueued [cbEnqueues 1 9; cbThrows 2 7; cbDone 3])) /\
    log st' = log (sampleQueued [cbEnqueues 1 9; cbThrows 2 7; cbDone 3]) ++ evs /\
    Forall (calledAt Scheduler_ImmediatePriority) evs.
Proof.
  apply (drain_runs_at_immediate_priority false 15 10
           (sampleQueued [cbEnqueues 1 9; cbThrows 2 7; cbDone 3]) 0
           [cbEnqueues 1 9; cbThrows 2 7; cbDone 3]).
  - reflexivity.
  - reflexivity.
  - reflexivity.
  - simpl. lia.
Defined.

(** With [decoupleUpdatePriorityFromScheduler] off (lines 246-277) the
    drain does not touch the current update lane priority: the first
    callback is called under the lane priority in force when the drain
    began; and when no callback sets the lane priority itself, every
    callback is called under it and it is unchanged afterwards, whether the
    drain succeeds or throws.  The guard is clear afterwards. *)
Theorem drain_without_decoupling_keeps_lane (syncLane : Z) (fuel : nat)
    (st : State) (q : nat) (A : list SchedulerCallback) :
  isFlushingSyncQueue st = false ->
  syncQueue st = Some q ->
  arrays st !! q = Some A ->
  queueSize A < fuel ->
  exists st',
    (flushSyncCallbackQueueImpl false syncLane fuel st = Ok tt st' \/
     exists e, flushSyncCallbackQueueImpl false syncLane fuel st = Throw e st') /\
    isFlushingSyncQueue st' = false /\
    (forall c, A !! 0 = Some c ->
       exists evs,
         log st' = log st ++
           EvInvoke (callbackName c) true (currentUpdateLanePriority st)
             Scheduler_ImmediatePriority :: evs) /\
    (Forall (fun c => keepsLane c = true) A ->
       currentUpdateLanePriority st' = currentUpdateLanePriority st /\
       exists evs,
         log st' = log st ++ evs /\
         Forall (calledUnder (currentUpdateLanePriority st)) evs).
Proof.
  intros Hg Hq Ha Hn. destruct fuel as [|f]; [lia|].
  rewrite (flushImpl_enter false syncLane _ _ _ Hg Hq).
  destruct (forLoop_total (reentrantFlushOf false syncLane (S f)) q
              (reentrantFlushOf_guarded false syncLane f) (S f) 0
              (drainEntry false syncLane st) A)
    as (j & st' & F & Hd' & Hrun & (evs & Hlog & Hfirst) & Hlane).
  - apply draining_drainEntry; assumption.
  - simpl. exact Hn.
  - rewrite log_drainEntry in Hlog. destruct Hrun as [Hrun|[e Hrun]]; rewrite Hrun.
    + eexists. split; [left; reflexivity|]. simpl.
      split; [reflexivity|]. split.
      * intros c Hc. destruct (Hfirst c Hc) as (evs' & ->).
        exists evs'. exact Hlog.
      * intros Hk. destruct (Hlane Hk) as [Hl (evs2 & Hlog2 & Hu)].
        rewrite log_drainEntry in Hlog2. split; [exact Hl|].
        exists evs2. split; assumption.
    + destruct Hd' as [_ Hq' Ha'].
      destruct (catchBlock_spec j e
                  (set_hostPriorityLevel (hostPriorityLevel (host st)) st') q F
                  Hq' Ha')
        as (st2 & Hcatch & _ & _ & Hl2 & _ & Hlane2).
      rewrite Hcatch. eexists. split; [right; exists e; reflexivity|]. simpl.
      split; [reflexivity|]. split.
      * intros c Hc. destruct (Hfirst c Hc) as (evs' & ->).
        eexists. rewrite Hl2. simpl. rewrite Hlog, <- app_assoc. reflexivity.
      * intros Hk. destruct (Hlane Hk) as [Hl (evs2 & Hlog2 & Hu)].
        rewrite log_drainEntry in Hlog2. split.
        -- rewrite Hlane2. exact Hl.
        -- eexists. split.
           ++ rewrite Hl2. simpl. rewrite Hlog2, <- app_assoc. reflexivity.
           ++ apply Forall_app. split; [exact Hu|].
              constructor; [exact I|constructor].
Qed.

Lemma drain_without_decoupling_keeps_lane_witness :
  exists st',
    (flushSyncCallbackQueueImpl false 15 10 (sampleQueued [cbDone 1; cbThrows 2 7])
       = Ok tt st' \/
     exists e,
       flushSyncCallbackQueueImpl false 15 10 (sampleQueued [cbDone 1; cbThrows 2 7])
         = Throw e st') /\
    isFlushingSyncQueue st' = false /\
    (forall c, [cbDone 1; cbThrows 2 7] !! 0 = Some c ->
       exists evs,
         log st' = log (sampleQueued [cbDone 1; cbThrows 2 7]) ++
           EvInvoke (callbackName c) true
             (currentUpdateLanePriority (sampleQueued [cbDone 1; cbThrows 2 7]))
             Scheduler_ImmediatePriority :: evs) /\
    (Forall (fun c => keepsLane c = true) [cbDone 1; cbThrows 2 7] ->
       currentUpdateLanePriority st'
         = currentUpdateLanePriority (sampleQueued [cbDone 1; cbThrows 2 7]) /\
       exists evs,
         log st' = log (sampleQueued [cbDone 1; cbThrows 2 7]) ++ evs /\
         Forall (calledUnder
                   (currentUpdateLanePriority (sampleQueued [cbDone 1; cbThrows 2 7])))
           evs).
Proof.
  apply (drain_without_decoupling_keeps_lane 15 10
           (sampleQueued [cbDone 1; cbThrows 2 7]) 0 [cbDone 1; cbThrows 2 7]).
  - reflexivity.
  - reflexivity.
  - reflexivity.
  - simpl. lia.
Defined.

(** A drain fails at the entry [c]; callbacks [more] are enqueued
    afterwards; then [flushSyncCallbackQueue] (the function the [catch]
    block registered) is called.  When nothing that is left throws, this
    second flush succeeds and calls, in order, the entries that were behind
    [c], what the failed drain had enqueued, and [more]; [c] and the
    entries before it are not called again; [syncQueue] is null afterwards.
    The enqueueing of [more] made no request to the host: the only request
    since the first drain began is the one of the [catch] block. *)
Theorem flush_after_failure_runs_rest (decouple : bool) (syncLane : Z)
    (fuel fuel2 : nat) (st : State) (q : nat) (pre : list SchedulerCallback)
    (c : SchedulerCallback) (post rest more : list SchedulerCallback) (e : Error) :
  isFlushingSyncQueue st = false ->
  syncQueue st = Some q ->
  arrays st !! q = Some (pre ++ c :: post) ->
  Forall (fun p => chainError p = None) pre ->
  chainError c = Some e ->
  queueSize (pre ++ c :: post) < fuel ->
  rest = post ++ flat_map enqueuedBy (pre ++ [c]) ->
  Forall (fun k => neverThrows k = true) (rest ++ more) ->
  queueSize (rest ++ more) < fuel2 ->
  exists st1 st2 extra node,
    flushSyncCallbackQueueImpl decouple syncLane fuel st = Throw e st1 /\
    flushSyncCallbackQueue decouple syncLane fuel2 (scheduleSyncCallbacks more st1)
      = Ok tt st2 /\
    syncQueue st2 = None /\
    invocations (log st2) =
      invocations (log st) ++ flat_map chainCalls (pre ++ [c]) ++
      flat_map chainCalls (rest ++ more ++ extra) /\
    extra = flat_map enqueuedBy (rest ++ more ++ extra) /\
    registrations (log st2) =
      registrations (log st) ++
      [(Scheduler_ImmediatePriority, Fn_flushSyncCallbackQueue, node)].
Proof.
  intros Hg Hq Ha Hpre Hc Hn -> Hall Hn2.
  destruct (flushImpl_throws decouple syncLane fuel st q pre c post e
              Hg Hq Ha Hpre Hc Hn)
    as (st1 & q' & evs & node & Hrun & Hq1 & Ha1 & Hg1 & Hlog1 & Hinv1 & Hreg1).
  destruct (scheduleSyncCallbacks_push more st1 q' _ Hq1 Ha1)
    as (Hqm & Ham & Hgm & _ & Hlogm).
  set (stm := scheduleSyncCallbacks more st1) in *.
  destruct (cancelImmediateQueueCallbackNode_frame stm)
    as (Hqc & Hgc & Hac & _ & evs0 & Hlogc & Hinvc & Hregc).
  destruct (flushImpl_neverThrows decouple syncLane fuel2
              (cancelImmediateQueueCallbackNode stm) q'
              ((post ++ flat_map enqueuedBy (pre ++ [c])) ++ more))
    as (st2 & F & evs2 & Hrun2 & Hq2 & _ & _ & HF & Hlog2 & Hinv2 & Hreg2);
    try congruence.
  exists st1, st2, (flat_map enqueuedBy F), node.
  split; [exact Hrun|]. split; [exact Hrun2|]. split; [exact Hq2|].
  rewrite (app_assoc (post ++ flat_map enqueuedBy (pre ++ [c])) more
             (flat_map enqueuedBy F)), <- HF.
  split; [|split; [reflexivity|]].
  - rewrite Hlog2, Hlogc, Hlogm, Hlog1.
    rewrite !invocations_app, Hinvc, Hinv1, Hinv2. simpl.
    rewrite !app_nil_r, <- app_assoc. reflexivity.
  - rewrite Hlog2, Hlogc, Hlogm, Hlog1.
    rewrite !registrations_app, Hregc, Hreg1, Hreg2. simpl.
    rewrite !app_nil_r. reflexivity.
Qed.

Lemma flush_after_failure_runs_rest_witness :
  exists st1 st2 extra node,
    flushSyncCallbackQueueImpl true 15 10
      (sampleQueued [cbEnqueues 1 9; cbThrows 2 7; cbTwoSteps 3 4]) = Throw (CallbackError 7) st1 /\
    flushSyncCallbackQueue true 15 10 (scheduleSyncCallbacks [cbDone 5] st1)
      = Ok tt st2 /\
    syncQueue st2 = None /\
    invocations (log st2) =
      invocations (log (sampleQueued [cbEnqueues 1 9; cbThrows 2 7; cbTwoSteps 3 4])) ++
      flat_map chainCalls ([cbEnqueues 1 9] ++ [cbThrows 2 7]) ++
      flat_map chainCalls ([cbTwoSteps 3 4; cbDone 9] ++ [cbDone 5] ++ extra) /\
    extra = flat_map enqueuedBy ([cbTwoSteps 3 4; cbDone 9] ++ [cbDone 5] ++ extra) /\
    registrations (log st2) =
      registrations (log (sampleQueued [cbEnqueues 1 9; cbThrows 2 7; cbTwoSteps 3 4])) ++
      [(Scheduler_ImmediatePriority, Fn_flushSyncCallbackQueue, node)].
Proof.
  apply (flush_after_failure_runs_rest true 15 10 10
           (sampleQueued [cbEnqueues 1 9; cbThrows 2 7; cbTwoSteps 3 4]) 0
           [cbEnqueues 1 9] (cbThrows 2 7) [cbTwoSteps 3 4]
           [cbTwoSteps 3 4; cbDone 9] [cbDone 5] (CallbackError 7)).
  - reflexivity.
  - reflexivity.
  - reflexivity.
  - repeat constructor.
  - reflexivity.
  - simpl. lia.
  - reflexivity.
  - repeat constructor.
  - simpl. lia.
Defined.

(** ** Queued work is not stranded *)

Lemma registered_app_inv node fn st st' evs :
  log st' = log st ++ evs ->
  registered node fn st' ->
  registered node fn st \/
  exists priority options, In (EvSchedule priority fn options node) evs.
Proof.
  intros Hl (p & o & Hin). rewrite Hl in Hin. apply in_app_or in Hin as [Hin|Hin].
  - left. exists p, o. exact Hin.
  - right. exists p, o. exact Hin.
Qed.

Lemma registered_below node fn st :
  Forall (fun ev => forall n, eventNode ev = Some n -> n < hostNextNode (host st))
    (log st) ->
  registered node fn st -> node < hostNextNode (host st).
Proof.
  intros Hnodes (p & o & Hin). rewrite Forall_forall in Hnodes.
  apply (Hnodes _ (proj2 (list_elem_of_In _ _) Hin) node). reflexivity.
Qed.

Lemma callOrCancelOf_no_schedule stored evs p fn o n :
  Forall (callOrCancelOf stored) evs -> ~ In (EvSchedule p fn o n) evs.
Proof.
  intros Hall Hin. rewrite Forall_forall in Hall.
  exact (Hall _ (proj2 (list_elem_of_In _ _) Hin)).
Qed.

Lemma callOrCancelOf_cancel stored evs n :
  Forall (callOrCancelOf stored) evs -> In (EvCancel n) evs -> stored = Some n.
Proof.
  intros Hall Hin. rewrite Forall_forall in Hall.
  exact (Hall _ (proj2 (list_elem_of_In _ _) Hin)).
Qed.

Lemma callOrCancelOf_below stored evs bound :
  (forall n, stored = Some n -> n < bound) ->
  Forall (callOrCancelOf stored) evs ->
  Forall (fun ev => forall n, eventNode ev = Some n -> n < bound) evs.
Proof.
  intros Hs Hall. eapply Forall_impl; [exact Hall|].
  intros [| |node]; simpl; intros H n Hn; try discriminate; try contradiction.
  injection Hn as <-. auto.
Qed.

Lemma nodes_below_weaken (evs : list Event) bound bound' :
  bound <= bound' ->
  Forall (fun ev => forall n, eventNode ev = Some n -> n < bound) evs ->
  Forall (fun ev => forall n, eventNode ev = Some n -> n < bound') evs.
Proof.
  intros Hle Hall. eapply Forall_impl; [exact Hall|].
  intros ev H n Hn. specialize (H n Hn). lia.
Qed.

(** How a drain of a queue ends, as far as the host's tasks go. *)
Lemma drain_ends_facts decouple syncLane fuel st q A st' :
  isFlushingSyncQueue st = false -> syncQueue st = Some q ->
  arrays st !! q = Some A ->
  queueSize A < fuel ->
  ends (flushSyncCallbackQueueImpl decouple syncLane fuel st) st' ->
  isFlushingSyncQueue st' = false /\
  (immediateQueueCallbackNode st' = immediateQueueCallbackNode st \/
   immediateQueueCallbackNode st' = None) /\
  exists evs,
    Forall (callOrCancelOf (immediateQueueCallbackNode st)) evs /\
    ((flushSyncCallbackQueueImpl decouple syncLane fuel st = Ok tt st' /\
      syncQueue st' = None /\
      log st' = log st ++ evs /\
      hostNextNode (host st') = hostNextNode (host st)) \/
     (exists e q',
        flushSyncCallbackQueueImpl decouple syncLane fuel st = Throw e st' /\
        syncQueue st' = Some q' /\
        is_Some (arrays st' !! q') /\
        log st' = log st ++ evs ++
          [EvSchedule Scheduler_ImmediatePriority Fn_flushSyncCallbackQueue None
             (hostNextNode (host st))] /\
        hostNextNode (host st') = S (hostNextNode (host st)))).
Proof.
  intros Hg Hq Ha Hn Hends.
  destruct (flushImpl_outcome decouple syncLane nodeStep
              nodeStep_refl nodeStep_trans nodeStep_invoke
              nodeStep_push nodeStep_cancel nodeStep_setLane
              fuel st q A Hg Hq Ha Hn)
    as (j & stL & F & Hd & (Hnext & Hstored & evs & Hlog & Hall) & Hrun).
  assert (Hen : hostNextNode (host (drainEntry decouple syncLane st))
                = hostNextNode (host st))
    by (unfold drainEntry; destruct decouple; reflexivity).
  assert (Hes : immediateQueueCallbackNode (drainEntry decouple syncLane st)
                = immediateQueueCallbackNode st)
    by (unfold drainEntry; destruct decouple; reflexivity).
  rewrite log_drainEntry in Hlog. rewrite Hen in Hnext. rewrite Hes in Hstored, Hall.
  destruct Hrun as [Hrun|[e Hrun]].
  - assert (st' = drainOkState decouple st stL) as ->.
    { destruct Hends as [H|[e H]]; rewrite Hrun in H; congruence. }
    split; [unfold drainOkState, drainCleanup; destruct decouple; reflexivity|].
    split; [unfold drainOkState, drainCleanup; destruct decouple; exact Hstored|].
    exists evs. split; [exact Hall|]. left. split; [exact Hrun|].
    unfold drainOkState, drainCleanup. destruct decouple; simpl; auto.
  - assert (st' = drainThrowState decouple st q j stL) as ->.
    { destruct Hends as [H|[e' H]]; rewrite Hrun in H; congruence. }
    split; [unfold drainThrowState, drainCleanup; destruct decouple; reflexivity|].
    split; [unfold drainThrowState, drainCleanup; destruct decouple; exact Hstored|].
    exists evs. split; [exact Hall|]. right.
    exists e, (length (arrays stL)). split; [exact Hrun|].
    unfold drainThrowState, drainCleanup, afterCatch.
    destruct decouple; simpl; rewrite Hlog, Hnext, <- app_assoc;
      (split; [reflexivity|]);
      (split; [rewrite list_lookup_middle by reflexivity; eexists; reflexivity|]);
      auto.
Qed.

(** The task the [catch] block registers is not kept in
    [immediateQueueCallbackNode]: after a drain that threw, the task kept
    there is the one kept before the drain, or none (a callback called
    [flushSyncCallbackQueue]).  So a later [flushSyncCallbackQueue] does not
    cancel the new task, and no cancellation of it is in the log. *)
Theorem recovery_task_is_not_stored (decouple : bool) (syncLane : Z) (fuel : nat)
    (st : State) (q : nat) (A : list SchedulerCallback) (e : Error) (st' : State) :
  isFlushingSyncQueue st = false ->
  syncQueue st = Some q ->
  arrays st !! q = Some A ->
  queueSize A < fuel ->
  (forall n, immediateQueueCallbackNode st = Some n -> n < hostNextNode (host st)) ->
  Forall (fun ev => forall n, eventNode ev = Some n -> n < hostNextNode (host st))
    (log st) ->
  flushSyncCallbackQueueImpl decouple syncLane fuel st = Throw e st' ->
  registered (hostNextNode (host st)) Fn_flushSyncCallbackQueue st' /\
  immediateQueueCallbackNode st' <> Some (hostNextNode (host st)) /\
  (immediateQueueCallbackNode st' = immediateQueueCallbackNode st \/
   immediateQueueCallbackNode st' = None) /\
  ~ In (EvCancel (hostNextNode (host st)))
      (log (cancelImmediateQueueCallbackNode st')).
Proof.
  intros Hg Hq Ha Hn Hs Hnodes Hrun.
  destruct (drain_ends_facts decouple syncLane fuel st q A st' Hg Hq Ha Hn)
    as (_ & Hstored & evs & Hall & [(Hok & _)|(e' & q' & _ & _ & _ & Hlog & _)]).
  { right. exists e. exact Hrun. }
  { congruence. }
  assert (Hne : immediateQueueCallbackNode st' <> Some (hostNextNode (host st))).
  { intros H. destruct Hstored as [H'|H']; rewrite H' in H; [|discriminate].
    specialize (Hs _ H). lia. }
  split.
  - eexists _, _. rewrite Hlog. apply in_or_app. right. apply in_or_app. right.
    left. reflexivity.
  - split; [exact Hne|]. split; [exact Hstored|].
    intros Hin.
    assert (Hin' : In (EvCancel (hostNextNode (host st))) (log st')).
    { unfold cancelImmediateQueueCallbackNode in Hin.
      destruct (immediateQueueCallbackNode st') as [n|] eqn:Hst; [|exact Hin].
      simpl in Hin. apply in_app_or in Hin as [Hin|[Hin|[]]]; [exact Hin|].
      injection Hin as ->. congruence. }
    rewrite Hlog in Hin'.
    apply in_app_or in Hin' as [Hin'|Hin'].
    + rewrite Forall_forall in Hnodes.
      specialize (Hnodes _ (proj2 (list_elem_of_In _ _) Hin') _ eq_refl). lia.
    + apply in_app_or in Hin' as [Hin'|[Hin'|[]]]; [|discriminate].
      specialize (Hs _ (callOrCancelOf_cancel _ _ _ Hall Hin')). lia.
Qed.

Lemma recovery_task_is_not_stored_witness :
  exists st',
    flushSyncCallbackQueueImpl false 15 10 (sampleQueued [cbThrows 2 7; cbDone 1])
      = Throw (CallbackError 7) st' /\
    (registered (hostNextNode (host (sampleQueued [cbThrows 2 7; cbDone 1])))
       Fn_flushSyncCallbackQueue st' /\
     immediateQueueCallbackNode st'
       <> Some (hostNextNode (host (sampleQueued [cbThrows 2 7; cbDone 1]))) /\
     (immediateQueueCallbackNode st'
        = immediateQueueCallbackNode (sampleQueued [cbThrows 2 7; cbDone 1]) \/
      immediateQueueCallbackNode st' = None) /\
     ~ In (EvCancel (hostNextNode (host (sampleQueued [cbThrows 2 7; cbDone 1]))))
         (log (cancelImmediateQueueCallbackNode st'))).
Proof.
  eexists. split.
  - vm_compute. reflexivity.
  - apply (recovery_task_is_not_stored false 15 10
             (sampleQueued [cbThrows 2 7; cbDone 1]) 0 [cbThrows 2 7; cbDone 1]
             (CallbackError 7)).
    + reflexivity.
    + reflexivity.
    + reflexivity.
    + simpl. lia.
    + intros n Hn. injection Hn as <-. simpl. lia.
    + vm_compute. constructor; [intros m Hm; injection Hm as <-; lia|constructor].
    + vm_compute. reflexivity.
Defined.

Lemma registered_after_catch st st' stored evs p0 fn0 o0 n0 n fn :
  log st' = log st ++ evs ++ [EvSchedule p0 fn0 o0 n0] ->
  Forall (callOrCancelOf stored) evs ->
  registered n fn st' ->
  registered n fn st \/ (n = n0 /\ fn = fn0).
Proof.
  intros Hl Hall (p & o & Hin). rewrite Hl in Hin.
  apply in_app_or in Hin as [Hin|Hin]; [left; exists p, o; exact Hin|].
  apply in_app_or in Hin as [Hin|[Hin|[]]].
  - exfalso. exact (callOrCancelOf_no_schedule _ _ _ _ _ _ Hall Hin).
  - right. injection Hin as _ <- _ <-. auto.
Qed.

(** A drain from a settled world ends in a settled world where queued
    work has a flush to come. *)
Lemma settled_after_drain decouple syncLane fuel st fired st' :
  settled (mkWorld st fired) ->
  enoughFuel st fuel ->
  ends (flushSyncCallbackQueueImpl decouple syncLane fuel st) st' ->
  settled (mkWorld st' fired) /\ queueHasPendingFlush (mkWorld st' fired).
Proof.
  intros [Hg Halloc Hstored Hnodes Hfired Huniq] Hfuel Hends. simpl in *.
  destruct (syncQueue st) as [q|] eqn:Hq.
  - destruct (Halloc q eq_refl) as [A Ha].
    destruct (drain_ends_facts decouple syncLane fuel st q A st' Hg Hq Ha
                (Hfuel q A Hq Ha) Hends)
      as (Hg' & Hst & evs & Hall &
          [(_ & Hq' & Hlog & Hnext)|(e & q' & _ & Hq' & Ha' & Hlog & Hnext)]).
    + split.
      * split; simpl.
        -- exact Hg'.
        -- intros q0 H. congruence.
        -- intros n H. rewrite Hnext.
           destruct Hst as [Hst|Hst]; rewrite Hst in H; [auto|discriminate].
        -- rewrite Hlog, Hnext. apply Forall_app. split; [exact Hnodes|].
           eapply callOrCancelOf_below; eauto.
        -- rewrite Hnext. exact Hfired.
        -- intros n fn fn' H1 H2.
           destruct (registered_app_inv _ _ _ _ _ Hlog H1) as [H1'|(p & o & H1')];
             [|exfalso; exact (callOrCancelOf_no_schedule _ _ _ _ _ _ Hall H1')].
           destruct (registered_app_inv _ _ _ _ _ Hlog H2) as [H2'|(p & o & H2')];
             [|exfalso; exact (callOrCancelOf_no_schedule _ _ _ _ _ _ Hall H2')].
           eauto.
      * intros H. simpl in H. congruence.
    + assert (Hevs : Forall (fun ev => forall n, eventNode ev = Some n ->
                                        n < hostNextNode (host st)) evs)
        by (eapply callOrCancelOf_below; eauto).
      split.
      * split; simpl.
        -- exact Hg'.
        -- intros q0 H. rewrite Hq' in H. injection H as <-. exact Ha'.
        -- intros n H. rewrite Hnext.
           destruct Hst as [Hst|Hst]; rewrite Hst in H; [|discriminate].
           specialize (Hstored n H). lia.
        -- rewrite Hlog, Hnext. apply Forall_app. split.
           ++ eapply nodes_below_weaken; [|exact Hnodes]. lia.
           ++ apply Forall_app. split.
              ** eapply nodes_below_weaken; [|exact Hevs]. lia.
              ** constructor; [|constructor]. simpl. intros n H.
                 injection H as <-. lia.
        -- rewrite Hnext. eapply Forall_impl; [exact Hfired|].
           simpl. intros n H. lia.
        -- intros n fn fn' H1 H2.
           destruct (registered_after_catch _ _ _ _ _ _ _ _ _ _ Hlog Hall H1)
             as [H1'|[Hn1 Hf1]];
             destruct (registered_after_catch _ _ _ _ _ _ _ _ _ _ Hlog Hall H2)
               as [H2'|[Hn2 Hf2]].
           ++ eauto.
           ++ pose proof (registered_below _ _ _ Hnodes H1'). lia.
           ++ pose proof (registered_below _ _ _ Hnodes H2'). lia.
           ++ congruence.
      * intros _. exists (hostNextNode (host st)), Fn_flushSyncCallbackQueue.
        split; [reflexivity|]. simpl. split; [|split].
        -- eexists _, _. rewrite Hlog. apply in_or_app. right.
           apply in_or_app. right. left. reflexivity.
        -- rewrite Hlog. intros Hin.
           apply in_app_or in Hin as [Hin|Hin].
           ++ rewrite Forall_forall in Hnodes.
              specialize (Hnodes _ (proj2 (list_elem_of_In _ _) Hin) _ eq_refl). lia.
           ++ apply in_app_or in Hin as [Hin|[Hin|[]]]; [|discriminate].
              rewrite Forall_forall in Hevs.
              specialize (Hevs _ (proj2 (list_elem_of_In _ _) Hin) _ eq_refl). lia.
        -- intros Hin. rewrite Forall_forall in Hfired.
           specialize (Hfired _ (proj2 (list_elem_of_In _ _) Hin)). lia.
  - rewrite flushImpl_null in Hends by exact Hq.
    assert (st' = st) as -> by (destruct Hends as [H|[e H]]; congruence).
    split.
    + split; simpl; auto. intros q0 H. congruence.
    + intros H. simpl in H. congruence.
Qed.

Lemma settled_cancelImmediateQueueCallbackNode st fired :
  settled (mkWorld st fired) ->
  settled (mkWorld (cancelImmediateQueueCallbackNode st) fired).
Proof.
  intros [Hg Halloc Hstored Hnodes Hfired Huniq]. simpl in *.
  unfold cancelImmediateQueueCallbackNode.
  destruct (immediateQueueCallbackNode st) as [node|] eqn:Hs;
    [|split; simpl; auto; intros n H; congruence].
  split; simpl; auto.
  - intros n H. discriminate.
  - apply Forall_app. split; [exact Hnodes|].
    constructor; [|constructor]. simpl. intros n H. injection H as <-. auto.
  - intros n fn fn' (p & o & H1) (p' & o' & H2). simpl in H1, H2.
    apply in_app_or in H1 as [H1|[H1|[]]]; [|discriminate].
    apply in_app_or in H2 as [H2|[H2|[]]]; [|discriminate].
    apply (Huniq n); eexists _, _; eassumption.
Qed.

Lemma enoughFuel_cancelImmediateQueueCallbackNode st fuel :
  enoughFuel st fuel -> enoughFuel (cancelImmediateQueueCallbackNode st) fuel.
Proof.
  intros H q A Hq Ha.
  destruct (cancelImmediateQueueCallbackNode_frame st) as (Hq' & _ & Ha' & _).
  apply (H q A); congruence.
Qed.

Lemma unique_after_schedule st st' p0 fn0 o0 :
  log st' = log st ++ [EvSchedule p0 fn0 o0 (hostNextNode (host st))] ->
  Forall (fun ev => forall n, eventNode ev = Some n -> n < hostNextNode (host st))
    (log st) ->
  (forall n fn fn', registered n fn st -> registered n fn' st -> fn = fn') ->
  forall n fn fn', registered n fn st' -> registered n fn' st' -> fn = fn'.
Proof.
  intros Hlog Hnodes Huniq n fn fn' H1 H2.
  assert (Hlog' : log st' = log st ++ [] ++
                    [EvSchedule p0 fn0 o0 (hostNextNode (host st))]) by exact Hlog.
  destruct (registered_after_catch _ _ None _ _ _ _ _ _ _ Hlog' (Forall_nil_2 _) H1)
    as [H1'|[Hn1 Hf1]];
    destruct (registered_after_catch _ _ None _ _ _ _ _ _ _ Hlog' (Forall_nil_2 _) H2)
      as [H2'|[Hn2 Hf2]].
  - eauto.
  - pose proof (registered_below _ _ _ Hnodes H1'). lia.
  - pose proof (registered_below _ _ _ Hnodes H2'). lia.
  - congruence.
Qed.

Lemma nodes_after_schedule st p0 fn0 o0 :
  Forall (fun ev => forall n, eventNode ev = Some n -> n < hostNextNode (host st))
    (log st) ->
  Forall (fun ev => forall n, eventNode ev = Some n -> n < S (hostNextNode (host st)))
    (log st ++ [EvSchedule p0 fn0 o0 (hostNextNode (host st))]).
Proof.
  intros Hnodes. apply Forall_app. split.
  - eapply nodes_below_weaken; [|exact Hnodes]. lia.
  - constructor; [|constructor]. simpl. intros n H. injection H as <-. lia.
Qed.

Lemma pendingFlush_kept w w' node fn :
  pendingFlush w node fn ->
  (forall p o, In (EvSchedule p fn o node) (log (moduleState w)) ->
               In (EvSchedule p fn o node) (log (moduleState w'))) ->
  (In (EvCancel node) (log (moduleState w')) ->
   In (EvCancel node) (log (moduleState w))) ->
  firedNodes w' = firedNodes w ->
  pendingFlush w' node fn.
Proof.
  intros (Hf & (p & o & Hr) & Hc & Hfi) Hreg Hcan Hfired.
  split; [exact Hf|]. split; [exists p, o; auto|]. split; [auto|].
  rewrite Hfired. exact Hfi.
Qed.

Lemma reactPriorityToSchedulerPriority_state level st p st1 :
  reactPriorityToSchedulerPriority level st = Ok p st1 -> st1 = st.
Proof.
  unfold reactPriorityToSchedulerPriority, invariant_false.
  repeat match goal with
         | |- context [Z.eqb level ?k] => destruct (Z.eqb level k)
         end; congruence.
Qed.

Lemma reachable_settled decouple syncLane w :
  reachable decouple syncLane w -> settled w /\ queueHasPendingFlush w.
Proof.
  induction 1 as [h lane
                 |w c Hreach [IHs IHp]
                 |w fuel st' Hreach [IHs IHp] Hfuel Hends
                 |w level c options node st' Hreach [IHs IHp] Hsched
                 |w node c Hreach [IHs IHp] Hreg
                 |w node fn fuel r st' Hreach [IHs IHp] Hpend Hfuel Hrun Hends].
  - split.
    + split; simpl; auto; try (intros; discriminate).
      intros n fn fn' (p & o & []).
    + intros H. simpl in H. congruence.
  - destruct w as [st fired]. simpl in *.
    destruct IHs as [Hg Halloc Hstored Hnodes Hfired Huniq]. simpl in *.
    unfold scheduleSyncCallback.
    destruct (syncQueue st) as [q|] eqn:Hq; simpl.
    + split.
      * split; simpl; try assumption.
        intros q0 H. rewrite Hq in H. injection H as <-.
        destruct (Halloc q eq_refl) as [A Ha].
        rewrite list_lookup_insert_eq by (eapply lookup_lt_Some; eauto). eauto.
      * intros _. destruct IHp as (node & fn & Hp); [simpl; congruence|].
        exists node, fn.
        eapply pendingFlush_kept; [exact Hp| | |reflexivity]; simpl; auto.
    + split.
      * split; simpl; try assumption.
        -- intros q0 H. injection H as <-.
           rewrite list_lookup_middle by reflexivity. eauto.
        -- intros n H. injection H as <-. lia.
        -- apply nodes_after_schedule. exact Hnodes.
        -- eapply Forall_impl; [exact Hfired|]. simpl. intros n H. lia.
        -- eapply (unique_after_schedule st);
             [reflexivity|exact Hnodes|exact Huniq].
      * intros _. exists (hostNextNode (host st)), Fn_flushSyncCallbackQueueImpl.
        split; [reflexivity|]. simpl. split; [|split].
        -- eexists _, _. apply in_or_app. right. left. reflexivity.
        -- intros Hin. apply in_app_or in Hin as [Hin|[Hin|[]]]; [|discriminate].
           rewrite Forall_forall in Hnodes.
           specialize (Hnodes _ (proj2 (list_elem_of_In _ _) Hin) _ eq_refl). lia.
        -- intros Hin. rewrite Forall_forall in Hfired.
           specialize (Hfired _ (proj2 (list_elem_of_In _ _) Hin)). lia.
  - destruct w as [st fired]. simpl in *.
    unfold flushSyncCallbackQueue, flushSyncCallbackQueue_with in Hends.
    eapply settled_after_drain; [|apply enoughFuel_cancelImmediateQueueCallbackNode|];
      eauto using settled_cancelImmediateQueueCallbackNode.
  - destruct w as [st fired]. simpl in *.
    unfold scheduleCallback in Hsched.
    destruct (reactPriorityToSchedulerPriority level st) as [p st1|e st1|] eqn:Hp;
      try discriminate.
    apply reactPriorityToSchedulerPriority_state in Hp as ->.
    simpl in Hsched. injection Hsched as _ <-.
    destruct IHs as [Hg Halloc Hstored Hnodes Hfired Huniq]. simpl in *.
    split.
    + split; simpl; try assumption.
      * intros n H. specialize (Hstored n H). lia.
      * apply nodes_after_schedule. exact Hnodes.
      * eapply Forall_impl; [exact Hfired|]. simpl. intros n H. lia.
      * eapply (unique_after_schedule st);
          [reflexivity|exact Hnodes|exact Huniq].
    + intros Hq. simpl in Hq. destruct (IHp Hq) as (node' & fn & Hpend).
      exists node', fn.
      eapply pendingFlush_kept; [exact Hpend| | |reflexivity]; simpl.
      * intros p' o' Hin. apply in_or_app. left. exact Hin.
      * intros Hin. apply in_app_or in Hin as [Hin|[Hin|[]]]; [exact Hin|].
        discriminate.
  - destruct w as [st fired]. simpl in *.
    destruct IHs as [Hg Halloc Hstored Hnodes Hfired Huniq]. simpl in *.
    split.
    + split; simpl; try assumption.
      * apply Forall_app. split; [exact Hnodes|].
        constructor; [|constructor]. simpl. intros n H. injection H as <-.
        eapply registered_below; eauto.
      * intros n fn fn' (p & o & H1) (p' & o' & H2). simpl in H1, H2.
        apply in_app_or in H1 as [H1|[H1|[]]]; [|discriminate].
        apply in_app_or in H2 as [H2|[H2|[]]]; [|discriminate].
        apply (Huniq n); eexists _, _; eassumption.
    + intros Hq. simpl in Hq. destruct (IHp Hq) as (node' & fn & Hpend).
      exists node', fn.
      eapply pendingFlush_kept; [exact Hpend| | |reflexivity]; simpl.
      * intros p' o' Hin. apply in_or_app. left. exact Hin.
      * intros Hin. apply in_app_or in Hin as [Hin|[Hin|[]]]; [exact Hin|].
        injection Hin as <-.
        destruct Hpend as (Hflush & Hreg' & _). simpl in Hreg'.
        rewrite (Huniq _ _ _ Hreg' Hreg) in Hflush. discriminate.
  - destruct w as [st fired]. simpl in *.
    assert (Hs' : settled (mkWorld st (node :: fired))).
    { destruct IHs as [Hg Halloc Hstored Hnodes Hfired Huniq]. simpl in *.
      split; simpl; try assumption. constructor; [|exact Hfired].
      destruct Hpend as (_ & Hreg & _). eapply registered_below; eauto. }
    destruct fn as [| |c]; simpl in Hrun; try discriminate;
      injection Hrun as <-.
    + eapply settled_after_drain; eauto.
    + unfold flushSyncCallbackQueue, flushSyncCallbackQueue_with in Hends.
      eapply settled_after_drain;
        [|apply enoughFuel_cancelImmediateQueueCallbackNode|];
        eauto using settled_cancelImmediateQueueCallbackNode.
Qed.

(** In every world that comes about from module initialisation by calls of
    [scheduleSyncCallback], [flushSyncCallbackQueue], [scheduleCallback]
    and [cancelCallback] and by the host running pending flush tasks,
    whatever the callbacks do and whether drains succeed or throw: no drain
    is left in progress, and when [syncQueue] is not null, a flush function
    of the module is registered with the host that has neither been
    cancelled nor run.  Queued callbacks are never left without a flush to
    come. *)
Theorem queued_work_has_pending_flush (decouple : bool) (syncLane : Z) (w : World) :
  reachable decouple syncLane w ->
  isFlushingSyncQueue (moduleState w) = false /\
  (syncQueue (moduleState w) <> None -> exists node fn, pendingFlush w node fn).
Proof.
  intros H. destruct (reachable_settled decouple syncLane w H) as [Hs Hp].
  split; [exact (se_guard w Hs)|exact Hp].
Qed.

Lemma queued_work_has_pending_flush_witness :
  exists st',
    flushSyncCallbackQueueImpl true 15 10 (sampleQueued [cbThrows 2 7])
      = Throw (CallbackError 7) st' /\
    isFlushingSyncQueue (moduleState (mkWorld st' [0])) = false /\
    (syncQueue (moduleState (mkWorld st' [0])) <> None ->
     exists node fn, pendingFlush (mkWorld st' [0]) node fn).
Proof.
  eexists. split; [vm_compute; reflexivity|].
  apply (queued_work_has_pending_flush true 15).
  apply (reach_hostRuns true 15 (mkWorld (sampleQueued [cbThrows 2 7]) []) 0
           Fn_flushSyncCallbackQueueImpl 10
           (flushSyncCallbackQueueImpl true 15 10 (sampleQueued [cbThrows 2 7]))).
  - apply (reach_scheduleSyncCallback true 15 (mkWorld sampleState []) (cbThrows 2 7)).
    apply reach_init.
  - split; [reflexivity|]. split; [|split].
    + exists 1%Z, None. simpl. left. reflexivity.
    + simpl. intros [H|[]]. discriminate.
    + simpl. tauto.
  - intros q A Hq Ha. vm_compute in Hq. injection Hq as <-.
    vm_compute in Ha. injection Ha as <-. simpl. lia.
  - reflexivity.
  - right. exists (CallbackError 7). vm_compute. reflexivity.
Defined.

(** ** now *)

Lemma SFeqb_refl x : x <> S754_nan -> SFeqb x x = true.
Proof.
  unfold SFeqb. destruct x as [[]|[]| |[] m e]; simpl; try congruence;
    intros _; rewrite Z.compare_refl, Pos.compare_cont_refl; reflexivity.
Qed.

(** What is above some number is a number. *)
Lemma leb_eqb_refl (x y : float) :
  (x <=? y)%float = true -> (y =? y)%float = true.
Proof.
  rewrite FloatAxioms.leb_spec, FloatAxioms.eqb_spec. intros H.
  apply SFeqb_refl. intros Hy. rewrite Hy in H.
  destruct (Prim2SF x) as [[]|[]| |[] m e]; discriminate.
Qed.

(** [now] never gives a negative number, nor NaN, while the host clock has
    not run below its initial reading, when that reading is finite and not
    negative: in the forwarding branch because the host clock itself is
    not negative then, in the rebasing branch because the rounded
    difference of two floats has the sign of the exact one. *)
Theorem now_never_negative (st : State) :
  (0 <=? initialTimeMs st)%float = true ->
  (initialTimeMs st <? infinity)%float = true ->
  (initialTimeMs st <=? Scheduler_now st)%float = true ->
  (0 <=? now st)%float = true.
Proof.
  intros Hpos Hfin Hle. unfold now.
  destruct (initialTimeMs st <? 10000)%float eqn:Hlt.
  - exact (leb_zero_trans _ _ Hpos Hle).
  - apply sub_nonneg; [|exact Hfin|exact Hle].
    apply (ltb_leb_trans_zero 10000); [reflexivity|].
    destruct (ltb_or_leb (initialTimeMs st) 10000) as [H|H];
      [exact (leb_eqb_refl _ _ Hpos)|reflexivity|congruence|exact H].
Qed.

Lemma now_never_negative_witness :
  (0 <=? now (set_host (mkHost 1700000000000.5 3 0)
                (moduleInit (mkHost 1700000000000.25 3 0) 0)))%float = true.
Proof.
  apply (now_never_negative
           (set_host (mkHost 1700000000000.5 3 0)
              (moduleInit (mkHost 1700000000000.25 3 0) 0)));
    reflexivity.
Defined.

(** The difference is the binary64 one: it is rounded, so two rebased
    readings need not differ by what the host clock advanced. *)
Example scenario_now_rounds :
  now (set_host (mkHost 1152921504606846976 3 0)
         (moduleInit (mkHost 9007199254740994 3 0) 0))
    = 1143914305352105984%float /\
  (now (set_host (mkHost 0x1.86a1666666666p+15 3 0)
          (moduleInit (mkHost 0x1.3880ccccccccdp+13 3 0) 0))
   - now (set_host (mkHost 0x1.3881333333333p+14 3 0)
            (moduleInit (mkHost 0x1.3880ccccccccdp+13 3 0) 0)))%float
    <> (0x1.86a1666666666p+15 - 0x1.3881333333333p+14)%float.
Proof.
  split; [reflexivity|]. vm_compute. intros H.
  apply (f_equal Prim2SF) in H. vm_compute in H. discriminate.
Qed.

(** * Properties of src/index.js *)

(** [stateChanger] changes the state in place, and only the field the
    action names: with [UPDATE_TITLE_TEXT] the object [state.title] gets
    the action's text and keeps its colour, with [UPDATE_TITLE_COLOR] it
    gets the action's colour and keeps its text; every other object of the
    heap, the DOM, the console and [oldState] are as before. *)
Theorem stateChanger_updates_title_only (state : AppState) (action : Action)
    (p : Page) (item : TextItem) :
  items p !! title state = Some item ->
  actionType action = JsString "UPDATE_TITLE_TEXT" \/
  actionType action = JsString "UPDATE_TITLE_COLOR" ->
  exists p',
    stateChanger state action p = Done p' /\
    items p' !! title state =
      Some (if strictEquals (actionType action) (JsString "UPDATE_TITLE_TEXT")
            then mkTextItem (actionText action) (itemColor item)
            else mkTextItem (itemText item) (actionColor action)) /\
    (forall k, k <> title state -> items p' !! k = items p !! k) /\
    titleDOM p' = titleDOM p /\ contentDOM p' = contentDOM p /\
    consoleLog p' = consoleLog p /\ oldState p' = oldState p.
Proof.
  intros Hitem Htype. unfold stateChanger. rewrite Hitem.
  pose proof (lookup_lt_Some _ _ _ Hitem) as Hlt.
  destruct Htype as [-> | ->]; simpl; eexists; (split; [reflexivity|]); simpl;
    (split; [apply list_lookup_insert_eq; exact Hlt|]);
    (split; [intros k Hk; apply list_lookup_insert_ne; congruence|]); auto.
Qed.

Lemma stateChanger_updates_title_only_witness :
  exists p',
    stateChanger sampleAppState
      (mkAction (JsString "UPDATE_TITLE_COLOR") JsUndefined (JsString "blue"))
      samplePage = Done p' /\
    items p' !! title sampleAppState =
      Some (if strictEquals
                 (actionType
                    (mkAction (JsString "UPDATE_TITLE_COLOR") JsUndefined
                       (JsString "blue")))
                 (JsString "UPDATE_TITLE_TEXT")
            then mkTextItem
                   (actionText
                      (mkAction (JsString "UPDATE_TITLE_COLOR") JsUndefined
                         (JsString "blue")))
                   (itemColor (mkTextItem (JsString "Little book") (JsString "red")))
            else mkTextItem
                   (itemText (mkTextItem (JsString "Little book") (JsString "red")))
                   (actionColor
                      (mkAction (JsString "UPDATE_TITLE_COLOR") JsUndefined
                         (JsString "blue")))) /\
    (forall k, k <> title sampleAppState -> items p' !! k = items samplePage !! k) /\
    titleDOM p' = titleDOM samplePage /\ contentDOM p' = contentDOM samplePage /\
    consoleLog p' = consoleLog samplePage /\ oldState p' = oldState samplePage.
Proof.
  apply (stateChanger_updates_title_only sampleAppState
           (mkAction (JsString "UPDATE_TITLE_COLOR") JsUndefined (JsString "blue"))
           samplePage (mkTextItem (JsString "Little book") (JsString "red"))).
  - reflexivity.
  - right. reflexivity.
Defined.

Lemma storeListeners_subscribeAll listeners : forall store,
  storeListeners (subscribeAll listeners store) = storeListeners store ++ listeners /\
  storeState (subscribeAll listeners store) = storeState store /\
  storeChanger (subscribeAll listeners store) = storeChanger store.
Proof.
  induction listeners as [|l listeners IH]; intros store.
  - simpl. rewrite app_nil_r. auto.
  - change (subscribeAll (l :: listeners) store)
      with (subscribeAll listeners (snd (subscribe l store))).
    destruct (IH (snd (subscribe l store))) as (H1 & H2 & H3).
    rewrite H1, H2, H3. simpl. rewrite <- app_assoc. auto.
Qed.



(** An action whose type is neither of the two leaves the state as it is,
    and the listeners are called all the same. *)
Theorem dispatch_unknown_action_still_notifies (state : AppState)
    (listeners : list (Page -> Outcome)) (action : Action) (p : Page) :
  strictEquals (actionType action) (JsString "UPDATE_TITLE_TEXT") = false ->
  strictEquals (actionType action) (JsString "UPDATE_TITLE_COLOR") = false ->
  stateChanger state action p = Done p /\
  dispatch action (subscribeAll listeners (createStore state stateChanger)) p
    = forEachListener listeners p.
Proof.
  intros H1 H2.
  assert (Hc : stateChanger state action p = Done p)
    by (unfold stateChanger; rewrite H1, H2; reflexivity).
  split; [exact Hc|].
  destruct (storeListeners_subscribeAll listeners (createStore state stateChanger))
    as (Hl & Hs & Hch).
  unfold dispatch. rewrite Hs, Hch, Hl. simpl. rewrite Hc. reflexivity.
Qed.

Lemma dispatch_unknown_action_still_notifies_witness :
  stateChanger sampleAppState (mkAction (JsString "RESET") JsUndefined JsUndefined)
    samplePage = Done samplePage /\
  dispatch (mkAction (JsString "RESET") JsUndefined JsUndefined)
    (subscribeAll [fun q => Done (console_log "called" q)]
       (createStore sampleAppState stateChanger)) samplePage
    = forEachListener [fun q => Done (console_log "called" q)] samplePage.
Proof.
  apply (dispatch_unknown_action_still_notifies sampleAppState
           [fun q => Done (console_log "called" q)]
           (mkAction (JsString "RESET") JsUndefined JsUndefined) samplePage).
  - reflexivity.
  - reflexivity.
Defined.

(** [renderApp] called without an old state (line 108) renders both parts:
    it logs three lines and writes the text and the colour of
    [state.title] and [state.content] to the two elements; the state
    itself is not changed. *)
Theorem renderApp_first_render (state : AppState) (p : Page)
    (titleItem contentItem : TextItem) (titleElement contentElement : Element) :
  items p !! title state = Some titleItem ->
  items p !! content state = Some contentItem ->
  titleDOM p = Some titleElement ->
  contentDOM p = Some contentElement ->
  renderApp state None p =
    Done (mkPage (items p)
            (Some (mkElement (itemText titleItem) (itemColor titleItem)))
            (Some (mkElement (itemText contentItem) (itemColor contentItem)))
            (consoleLog p ++ ["render app..."%string; "render title..."%string; "render content..."%string])
            (oldState p)).
Proof.
  intros Ht Hc Htd Hcd. unfold renderApp, renderTitle, renderContent. simpl.
  rewrite Htd, Ht. simpl. rewrite Hcd, Hc.
  unfold set_contentDOM, set_titleDOM, console_log. simpl.
  rewrite <- !app_assoc. reflexivity.
Qed.

Lemma renderApp_first_render_witness :
  renderApp sampleAppState None samplePage =
    Done (mkPage (items samplePage)
            (Some (mkElement
                     (itemText (mkTextItem (JsString "Little book") (JsString "red")))
                     (itemColor (mkTextItem (JsString "Little book") (JsString "red")))))
            (Some (mkElement
                     (itemText (mkTextItem (JsString "Its content") (JsString "blue")))
                     (itemColor (mkTextItem (JsString "Its content") (JsString "blue")))))
            (consoleLog samplePage ++
               ["render app..."%string; "render title..."%string; "render content..."%string])
            (oldState samplePage)).
Proof.
  apply (renderApp_first_render sampleAppState samplePage
           (mkTextItem (JsString "Little book") (JsString "red"))
           (mkTextItem (JsString "Its content") (JsString "blue"))
           (mkElement JsUndefined JsUndefined) (mkElement JsUndefined JsUndefined));
    reflexivity.
Defined.

(** When the page has no element [title], [renderApp] throws in
    [renderTitle], after "render app..." and "render title..." were
    logged: the content is not rendered, and no element is written. *)
Theorem renderApp_without_title_element (state : AppState) (p : Page) :
  titleDOM p = None ->
  renderApp state None p =
    Thrown (mkPage (items p) None (contentDOM p)
              (consoleLog p ++ ["render app..."%string; "render title..."%string]) (oldState p)).
Proof.
  intros Htd. unfold renderApp, renderTitle. simpl. rewrite Htd.
  unfold console_log. simpl. rewrite Htd, <- !app_assoc. reflexivity.
Qed.

Lemma renderApp_without_title_element_witness :
  renderApp sampleAppState None (set_titleDOM None samplePage) =
    Thrown (mkPage (items (set_titleDOM None samplePage)) None
              (contentDOM (set_titleDOM None samplePage))
              (consoleLog (set_titleDOM None samplePage) ++
                 ["render app..."%string; "render title..."%string])
              (oldState (set_titleDOM None samplePage))).
Proof.
  apply (renderApp_without_title_element sampleAppState (set_titleDOM None samplePage)).
  reflexivity.
Defined.

Lemma renderOnChange_same_state store p :
  oldState p = Some (appId (getState store)) ->
  renderOnChange store p = Done p.
Proof.
  intros H. unfold renderOnChange, renderApp. rewrite H.
  rewrite bool_decide_eq_true_2 by reflexivity.
  unfold set_oldState. rewrite <- H. destruct p; reflexivity.
Qed.

Lemma stateChanger_keeps_page state action p p' :
  stateChanger state action p = Done p' ->
  titleDOM p' = titleDOM p /\ contentDOM p' = contentDOM p /\
  consoleLog p' = consoleLog p /\ oldState p' = oldState p /\
  length (items p') = length (items p).
Proof.
  unfold stateChanger.
  destruct (strictEquals (actionType action) (JsString "UPDATE_TITLE_TEXT")).
  - destruct (items p !! title state); [|discriminate].
    intros H. injection H as <-. simpl. rewrite length_insert. auto.
  - destruct (strictEquals (actionType action) (JsString "UPDATE_TITLE_COLOR")).
    + destruct (items p !! title state); [|discriminate].
      intros H. injection H as <-. simpl. rewrite length_insert. auto.
    + intros H. injection H as <-. auto.
Qed.

Lemma stateChanger_done state action p :
  title state < length (items p) ->
  exists p', stateChanger state action p = Done p'.
Proof.
  intros Hlt. apply lookup_lt_is_Some_2 in Hlt as [item Hitem].
  unfold stateChanger. rewrite Hitem.
  destruct (strictEquals (actionType action) (JsString "UPDATE_TITLE_TEXT"));
    [eauto|].
  destruct (strictEquals (actionType action) (JsString "UPDATE_TITLE_COLOR")); eauto.
Qed.

(** The store is set up as in lines 53-64.  Whatever actions are
    dispatched afterwards, every dispatch succeeds and none renders: the
    two elements and the console stay as they were, though the dispatches
    change [state.title].  The listener compares the state with
    [oldState], and both are the one object [stateChanger] changes in
    place. *)
Theorem dispatch_never_renders (appState : AppState) (p : Page)
    (actions : list Action) :
  title appState < length (items p) ->
  exists p',
    dispatchAll actions (fst (setUp appState p)) (snd (setUp appState p)) = Done p' /\
    titleDOM p' = titleDOM p /\
    contentDOM p' = contentDOM p /\
    consoleLog p' = consoleLog p /\
    oldState p' = Some (appId appState) /\
    getState (fst (setUp appState p)) = appState.
Proof.
  intros Hlt. unfold setUp. simpl.
  set (store := mkStore appState stateChanger
                  [renderOnChange (createStore appState stateChanger)]).
  set (p0 := set_oldState (Some (appId appState)) p).
  assert (Hgen : forall q,
             oldState q = Some (appId appState) ->
             title appState < length (items q) ->
             exists q',
               dispatchAll actions store q = Done q' /\
               titleDOM q' = titleDOM q /\ contentDOM q' = contentDOM q /\
               consoleLog q' = consoleLog q /\ oldState q' = Some (appId appState)).
  { induction actions as [|action actions IH]; intros q Hold Hq.
    - exists q. simpl. auto.
    - destruct (stateChanger_done appState action q Hq) as (q1 & Hq1).
      destruct (stateChanger_keeps_page _ _ _ _ Hq1) as (H1 & H2 & H3 & H4 & H5).
      assert (Hd : dispatch action store q = Done q1).
      { unfold dispatch. simpl. rewrite Hq1.
        rewrite renderOnChange_same_state by (simpl; congruence). reflexivity. }
      destruct (IH q1) as (q' & Hrun & H1' & H2' & H3' & H4'); [congruence|lia|].
      exists q'. simpl. rewrite Hd. split; [exact Hrun|].
      repeat split; congruence. }
  destruct (Hgen p0 eq_refl Hlt) as (p' & Hrun & H1 & H2 & H3 & H4).
  exists p'. split; [exact Hrun|]. auto.
Qed.

Lemma dispatch_never_renders_witness :
  exists p',
    dispatchAll
      [mkAction (JsString "UPDATE_TITLE_TEXT") (JsString "A new title") JsUndefined;
       mkAction (JsString "UPDATE_TITLE_COLOR") JsUndefined (JsString "blue")]
      (fst (setUp sampleAppState samplePage)) (snd (setUp sampleAppState samplePage))
      = Done p' /\
    titleDOM p' = titleDOM samplePage /\
    contentDOM p' = contentDOM samplePage /\
    consoleLog p' = consoleLog samplePage /\
    oldState p' = Some (appId sampleAppState) /\
    getState (fst (setUp sampleAppState samplePage)) = sampleAppState.
Proof.
  apply (dispatch_never_renders sampleAppState samplePage
           [mkAction (JsString "UPDATE_TITLE_TEXT") (JsString "A new title") JsUndefined;
            mkAction (JsString "UPDATE_TITLE_COLOR") JsUndefined (JsString "blue")]).
  simpl. lia.
Defined.

(** The script of lines 53-64 and 107-112, run on the sample page: the
    first render writes the title, the two dispatches change the state, and
    the page still shows the first title in the first colour. *)
Example scenario_index_js :
  match renderApp (getState (fst (setUp sampleAppState samplePage))) None
          (snd (setUp sampleAppState samplePage)) with
  | Done p1 =>
      match dispatchAll
              [mkAction (JsString "UPDATE_TITLE_TEXT") (JsString "A new title")
                 JsUndefined;
               mkAction (JsString "UPDATE_TITLE_COLOR") JsUndefined (JsString "blue")]
              (fst (setUp sampleAppState samplePage)) p1 with
      | Done p2 =>
          items p2 !! 0 = Some (mkTextItem (JsString "A new title") (JsString "blue")) /\
          titleDOM p2 = Some (mkElement (JsString "Little book") (JsString "red")) /\
          consoleLog p2 = ["render app..."%string; "render title..."%string; "render content..."%string]
      | Thrown _ => False
      end
  | Thrown _ => False
  end.
Proof. vm_compute. auto. Qed.
